(** * Mont Vallon landing page: the fly-over camera and the bounds fitter

    A shallow embedding of [src/App.jsx]: the per-frame callback of
    [FlyCamera], the layout effect of [MontVallonModel] that publishes the
    centre of the model's bounding box, and the two sliders of [App].

    Numbers.  A JavaScript number is an IEEE-754 double.  It is modelled by
    [num]: a real number, one of the two infinities, or NaN.  The special
    values follow the ECMAScript rules; a finite value is an element of [R],
    so rounding is idealised away and [Math.sin] / [Math.cos] are the real
    sine and cosine. *)

From Stdlib Require Import Reals Lra List Bool.
From Stdlib Require String.
Import ListNotations.
Import String.StringSyntax.
Delimit Scope string_scope with string.

Local Open Scope R_scope.

(** ** JavaScript numbers *)

Module JS.

Inductive num : Type :=
| NaN
| NInf
| Fin (r : R)
| PInf.

Definition is_finite (a : num) : Prop :=
  match a with Fin _ => True | _ => False end.

Definition neg (a : num) : num :=
  match a with
  | NaN => NaN
  | NInf => PInf
  | Fin r => Fin (- r)
  | PInf => NInf
  end.

(** [a + b] *)
Definition add (a b : num) : num :=
  match a, b with
  | NaN, _ | _, NaN => NaN
  | PInf, NInf | NInf, PInf => NaN
  | PInf, _ | _, PInf => PInf
  | NInf, _ | _, NInf => NInf
  | Fin x, Fin y => Fin (x + y)
  end.

(** [a - b] *)
Definition sub (a b : num) : num := add a (neg b).

(** An infinity times a finite factor: the sign of the factor decides, and
    zero gives NaN. *)
Definition scale_inf (pos : bool) (x : R) : num :=
  if Req_dec_T x 0 then NaN
  else if Rlt_dec 0 x then (if pos then PInf else NInf)
       else (if pos then NInf else PInf).

(** [a * b] *)
Definition mul (a b : num) : num :=
  match a, b with
  | NaN, _ | _, NaN => NaN
  | PInf, PInf | NInf, NInf => PInf
  | PInf, NInf | NInf, PInf => NInf
  | PInf, Fin x | Fin x, PInf => scale_inf true x
  | NInf, Fin x | Fin x, NInf => scale_inf false x
  | Fin x, Fin y => Fin (x * y)
  end.

(** [a < b]; false as soon as one side is NaN. *)
Definition ltb (a b : num) : bool :=
  match a, b with
  | NaN, _ | _, NaN => false
  | _, NInf => false
  | PInf, _ => false
  | NInf, _ => true
  | _, PInf => true
  | Fin x, Fin y => if Rlt_dec x y then true else false
  end.

(** [Math.min(a, b)] and [Math.max(a, b)]: NaN as soon as one argument is. *)
Definition Math_min (a b : num) : num :=
  match a, b with
  | NaN, _ | _, NaN => NaN
  | NInf, _ | _, NInf => NInf
  | PInf, c | c, PInf => c
  | Fin x, Fin y => Fin (Rmin x y)
  end.

Definition Math_max (a b : num) : num :=
  match a, b with
  | NaN, _ | _, NaN => NaN
  | PInf, _ | _, PInf => PInf
  | NInf, c | c, NInf => c
  | Fin x, Fin y => Fin (Rmax x y)
  end.

(** [Math.sin] and [Math.cos]: NaN outside the finite numbers. *)
Definition Math_sin (a : num) : num :=
  match a with Fin x => Fin (sin x) | _ => NaN end.

Definition Math_cos (a : num) : num :=
  match a with Fin x => Fin (cos x) | _ => NaN end.

End JS.

Import JS.

Declare Scope js_scope.
Delimit Scope js_scope with js.
Bind Scope js_scope with num.
Infix "+" := add : js_scope.
Infix "-" := sub : js_scope.
Infix "*" := mul : js_scope.

(** Decimal literals of the source, as finite numbers. *)
Coercion Fin : R >-> num.

(** ** Vectors *)

(** A three-element array [[x, y, z]], or a [Vector3]. *)
Record vec3 : Type := Vec3 { vx : num; vy : num; vz : num }.

Definition vfin (x y z : R) : vec3 := Vec3 (Fin x) (Fin y) (Fin z).

(** ** FlyCamera *)

(** The part of the three.js camera this component writes: [position], the
    point last handed to [lookAt], [fov], and the field of view baked into
    the projection matrix by [updateProjectionMatrix]. *)
Record Camera : Type := mkCamera {
  position : vec3;
  lookAt : vec3;
  fov : num;
  projection_fov : num
}.

(** Props of [FlyCamera], with the defaults of its signature. *)
Record FlyProps : Type := mkFlyProps {
  target : vec3;
  speed : num;
  fly_fov : num
}.

Definition default_target : vec3 := vfin 0 0.5 0.
Definition default_speed : num := Fin 0.15.
Definition default_fov : num := Fin 55.

(** One mounted [FlyCamera]: the ref [t] (created at 0 by [useRef(0)]) and
    the camera of [useThree]. *)
Record FlyState : Type := mkFlyState {
  t_current : num;
  camera : Camera
}.

Definition mount (c : Camera) : FlyState := mkFlyState (Fin 0) c.

(** The [useEffect] on [[camera, fov]]. *)
Definition fov_effect (p : FlyProps) (s : FlyState) : FlyState :=
  let c := camera s in
  mkFlyState (t_current s)
    (mkCamera (position c) (lookAt c) (fly_fov p) (fly_fov p)).

(** The local constants of the [useFrame] callback, as functions of the
    ref's new value. *)
Definition orbitAngle (t : num) : num := (t * Fin 0.3)%js.
Definition zoomFactor (t : num) : num := Math_min (t * Fin 1.2)%js (Fin 6).
Definition radius (t : num) : num :=
  Math_max (Fin 20) (Fin 26 - zoomFactor t * Fin 1.5)%js.
Definition height (t : num) : num :=
  (Fin 12 + Math_sin (t * Fin 0.4) * Fin 3)%js.

(** [t.current += delta * speed] *)
Definition advance (t delta spd : num) : num := (t + delta * spd)%js.

(** The [useFrame] callback. *)
Definition frame (p : FlyProps) (delta : num) (s : FlyState) : FlyState :=
  let t := advance (t_current s) delta (speed p) in
  let tg := target p in
  let c := camera s in
  mkFlyState t
    (mkCamera
       (Vec3 (vx tg + Math_cos (orbitAngle t) * radius t)%js
             (vy tg + height t)%js
             (vz tg + Math_sin (orbitAngle t) * radius t)%js)
       (Vec3 (vx tg) (vy tg) (vz tg))
       (fov c) (projection_fov c)).

(** ** three.js: Box3, Matrix4, Object3D

    [MontVallonModel] calls [new Box3().setFromObject(ref.current)] and
    [box.getCenter(new Vector3())].  Both belong to three.js, which the
    page imports ([import { Box3, Vector3 } from 'three']); the definitions
    below follow that library's methods of the same names.  The call
    passes no second argument, so [setFromObject] runs with
    [precise = false]: a node contributes the bounding box of its geometry,
    carried to world space, not its vertices one by one. *)

Record Box3 : Type := mkBox3 { bmin : vec3; bmax : vec3 }.

(** [makeEmpty()], also the box of [new Box3()]. *)
Definition makeEmpty : Box3 :=
  mkBox3 (Vec3 PInf PInf PInf) (Vec3 NInf NInf NInf).

(** [isEmpty()]: [max.x < min.x || max.y < min.y || max.z < min.z]. *)
Definition isEmpty (b : Box3) : bool :=
  ltb (vx (bmax b)) (vx (bmin b))
  || ltb (vy (bmax b)) (vy (bmin b))
  || ltb (vz (bmax b)) (vz (bmin b)).

(** [Vector3.min(v)] and [Vector3.max(v)], component by component. *)
Definition vmin (a b : vec3) : vec3 :=
  Vec3 (Math_min (vx a) (vx b)) (Math_min (vy a) (vy b))
       (Math_min (vz a) (vz b)).

Definition vmax (a b : vec3) : vec3 :=
  Vec3 (Math_max (vx a) (vx b)) (Math_max (vy a) (vy b))
       (Math_max (vz a) (vz b)).

(** [expandByPoint(point)] *)
Definition expandByPoint (b : Box3) (p : vec3) : Box3 :=
  mkBox3 (vmin (bmin b) p) (vmax (bmax b) p).

(** [setFromPoints(points)], and [setFromBufferAttribute] on the vertex
    positions of a geometry. *)
Definition setFromPoints (pts : list vec3) : Box3 :=
  fold_left expandByPoint pts makeEmpty.

(** [union(box)] *)
Definition union (b c : Box3) : Box3 :=
  mkBox3 (vmin (bmin b) (bmin c)) (vmax (bmax b) (bmax c)).

(** [getCenter(target)]: the origin for an empty box, otherwise
    [(min + max) * 0.5]. *)
Definition getCenter (b : Box3) : vec3 :=
  if isEmpty b then Vec3 (Fin 0) (Fin 0) (Fin 0)
  else Vec3 ((vx (bmin b) + vx (bmax b)) * Fin 0.5)%js
            ((vy (bmin b) + vy (bmax b)) * Fin 0.5)%js
            ((vz (bmin b) + vz (bmax b)) * Fin 0.5)%js.

(** A world matrix.  It is affine (its bottom row is 0 0 0 1), so only the
    three upper rows are kept and the perspective divide of
    [Vector3.applyMatrix4] is by 1. *)
Record Matrix4 : Type := mkMatrix4 {
  m11 : num; m12 : num; m13 : num; m14 : num;
  m21 : num; m22 : num; m23 : num; m24 : num;
  m31 : num; m32 : num; m33 : num; m34 : num
}.

Definition identity : Matrix4 :=
  mkMatrix4 (Fin 1) (Fin 0) (Fin 0) (Fin 0)
            (Fin 0) (Fin 1) (Fin 0) (Fin 0)
            (Fin 0) (Fin 0) (Fin 1) (Fin 0).

(** [Vector3.applyMatrix4(m)] *)
Definition applyMatrix4 (m : Matrix4) (p : vec3) : vec3 :=
  Vec3 (m11 m * vx p + m12 m * vy p + m13 m * vz p + m14 m)%js
       (m21 m * vx p + m22 m * vy p + m23 m * vz p + m24 m)%js
       (m31 m * vx p + m32 m * vy p + m33 m * vz p + m34 m)%js.

(** The eight corners of a box, in the order of [Box3.applyMatrix4]
    (000, 001, ..., 111). *)
Definition corners (b : Box3) : list vec3 :=
  let lo := bmin b in
  let hi := bmax b in
  [ Vec3 (vx lo) (vy lo) (vz lo); Vec3 (vx lo) (vy lo) (vz hi);
    Vec3 (vx lo) (vy hi) (vz lo); Vec3 (vx lo) (vy hi) (vz hi);
    Vec3 (vx hi) (vy lo) (vz lo); Vec3 (vx hi) (vy lo) (vz hi);
    Vec3 (vx hi) (vy hi) (vz lo); Vec3 (vx hi) (vy hi) (vz hi) ].

(** [Box3.applyMatrix4(matrix)]: an empty box stays as it is, any other is
    replaced by the box of its eight transformed corners. *)
Definition box_applyMatrix4 (b : Box3) (m : Matrix4) : Box3 :=
  if isEmpty b then b
  else setFromPoints (map (applyMatrix4 m) (corners b)).

(** A node of the scene graph: the vertex positions of its geometry
    ([None] for a node without geometry, such as a group), its world
    matrix, and its children. *)
#[local] Unset Elimination Schemes.
Inductive Object3D : Type :=
| mkObject3D (geometry : option (list vec3)) (matrixWorld : Matrix4)
             (children : list Object3D).
#[local] Set Elimination Schemes.

(** [expandByObject(object)]: the geometry's own bounding box is carried
    to world space and united with the box, then the children follow. *)
Fixpoint expandByObject (o : Object3D) (b : Box3) : Box3 :=
  match o with
  | mkObject3D geometry matrixWorld children =>
      let b1 :=
        match geometry with
        | Some pts => union b (box_applyMatrix4 (setFromPoints pts) matrixWorld)
        | None => b
        end in
      fold_left (fun acc child => expandByObject child acc) children b1
  end.

(** [setFromObject(object)] *)
Definition setFromObject (o : Object3D) : Box3 :=
  expandByObject o makeEmpty.

(** ** MontVallonModel *)

(** The body of the layout effect after its guard: the array handed to
    [onBounds]. *)
Definition computeFocus (o : Object3D) : vec3 :=
  let box := setFromObject o in
  let center := getCenter box in
  Vec3 (vx center) (vy center) (vz center).

(** The layout effect: nothing is published while [ref.current] is unset. *)
Definition bounds_effect (ref : option Object3D) : option vec3 :=
  match ref with
  | None => None
  | Some o => Some (computeFocus o)
  end.

(** ** Scene *)

(** [useState([0, 0.5, 0])] *)
Definition initial_target : vec3 := vfin 0 0.5 0.

(** [onBounds={setTarget}] *)
Definition Scene_onBounds (tg : vec3) (ref : option Object3D) : vec3 :=
  match bounds_effect ref with
  | Some c => c
  | None => tg
  end.

(** ** App *)

Record AppState : Type := mkAppState {
  flySpeed : num;
  perspective : num
}.

Definition App_initial : AppState := mkAppState (Fin 0.15) (Fin 75).

(** An [<input type="range">] with its [min], [max] and [step]. *)
Record RangeInput : Type := mkRangeInput {
  range_min : R;
  range_max : R;
  range_step : R
}.

Definition speed_slider : RangeInput := mkRangeInput 0.05 0.35 0.01.
Definition perspective_slider : RangeInput := mkRangeInput 50 100 1.

(** The value a range input reports when its thumb is [k] steps above
    [min]: step-aligned from [min] and never above [max]. *)
Definition range_value (r : RangeInput) (k : nat) : R :=
  Rmin (range_max r) (range_min r + INR k * range_step r).

(** The camera given to [Canvas]; fiber points a new camera at the
    origin. *)
Definition canvas_camera (a : AppState) : Camera :=
  mkCamera (vfin 0 50 150) (vfin 0 0 0) (perspective a) (perspective a).

(** ** The running page *)

Record World : Type := mkWorld {
  app : AppState;
  scene_target : vec3;
  fly : FlyState
}.

(** The props [Scene] hands to [FlyCamera]. *)
Definition fly_props (w : World) : FlyProps :=
  mkFlyProps (scene_target w) (flySpeed (app w)) (perspective (app w)).

Definition World_initial : World :=
  let p := mkFlyProps initial_target (flySpeed App_initial)
                      (perspective App_initial) in
  mkWorld App_initial initial_target
          (fov_effect p (mount (canvas_camera App_initial))).

Inductive Event : Type :=
| Frame (delta : R)
| SpeedInput (k : nat)
| PerspectiveInput (k : nat)
| ModelLayout (ref : option Object3D).

(** One reaction of the page.  A frame runs the [useFrame] callback with
    the props of the last render.  A slider change stores the new value;
    the effect on [[camera, fov]] runs again only when [fov] changed.  The
    ref [t] survives every re-render. *)
Definition step (w : World) (e : Event) : World :=
  match e with
  | Frame delta =>
      mkWorld (app w) (scene_target w) (frame (fly_props w) (Fin delta) (fly w))
  | SpeedInput k =>
      mkWorld (mkAppState (Fin (range_value speed_slider k))
                          (perspective (app w)))
              (scene_target w) (fly w)
  | PerspectiveInput k =>
      let a := mkAppState (flySpeed (app w))
                          (Fin (range_value perspective_slider k)) in
      let w1 := mkWorld a (scene_target w) (fly w) in
      mkWorld a (scene_target w) (fov_effect (fly_props w1) (fly w))
  | ModelLayout ref =>
      mkWorld (app w) (Scene_onBounds (scene_target w) ref) (fly w)
  end.

Definition run (w : World) (es : list Event) : World := fold_left step es w.

(** The states the page can be in. *)
Definition reachable (w : World) : Prop :=
  exists es : list Event, w = run World_initial es.

(** ** Vocabulary of the statements *)

(** What every state of the page satisfies: the speed is on the slider's
    grid and the accumulator is finite. *)
Definition page_invariant (w : World) : Prop :=
  (exists j : nat,
      (j <= 30)%nat /\ flySpeed (app w) = Fin (0.05 + INR j * 0.01)) /\
  (exists e : R, t_current (fly w) = Fin e).

(** The events that do not replace the focus. *)
Definition keeps_target (ev : Event) : Prop :=
  match ev with ModelLayout _ => False | _ => True end.

(** [a <= b] on numbers that are not NaN. *)
Definition nle (a b : num) : Prop :=
  match a, b with
  | NaN, _ | _, NaN => False
  | NInf, _ | _, PInf => True
  | Fin x, Fin y => x <= y
  | _, _ => False
  end.

(** The point lies between the corners of the box, on each axis. *)
Definition encloses (b : Box3) (p : vec3) : Prop :=
  (nle (vx (bmin b)) (vx p) /\ nle (vx p) (vx (bmax b))) /\
  (nle (vy (bmin b)) (vy p) /\ nle (vy p) (vy (bmax b))) /\
  (nle (vz (bmin b)) (vz p) /\ nle (vz p) (vz (bmax b))).

(** The first box lies in the second. *)
Definition within (a b : Box3) : Prop :=
  (nle (vx (bmin b)) (vx (bmin a)) /\ nle (vx (bmax a)) (vx (bmax b))) /\
  (nle (vy (bmin b)) (vy (bmin a)) /\ nle (vy (bmax a)) (vy (bmax b))) /\
  (nle (vz (bmin b)) (vz (bmin a)) /\ nle (vz (bmax a)) (vz (bmax b))).

Definition finite_vec (p : vec3) : Prop :=
  is_finite (vx p) /\ is_finite (vy p) /\ is_finite (vz p).

Definition finite_matrix (m : Matrix4) : Prop :=
  (is_finite (m11 m) /\ is_finite (m12 m) /\ is_finite (m13 m)
   /\ is_finite (m14 m)) /\
  (is_finite (m21 m) /\ is_finite (m22 m) /\ is_finite (m23 m)
   /\ is_finite (m24 m)) /\
  (is_finite (m31 m) /\ is_finite (m32 m) /\ is_finite (m33 m)
   /\ is_finite (m34 m)).

(** A box with finite corners, [min] below [max] on each axis. *)
Definition finite_box (b : Box3) : Prop :=
  exists x0 y0 z0 x1 y1 z1 : R,
    b = mkBox3 (vfin x0 y0 z0) (vfin x1 y1 z1) /\
    x0 <= x1 /\ y0 <= y1 /\ z0 <= z1.

(** The boxes that arise from finite geometry. *)
Definition tidy (b : Box3) : Prop := b = makeEmpty \/ finite_box b.

(** The nodes that carry geometry, in the order [expandByObject] visits
    them, each with its vertices and its world matrix. *)
Fixpoint meshes (o : Object3D) : list (list vec3 * Matrix4) :=
  match o with
  | mkObject3D geometry matrixWorld children =>
      match geometry with
      | Some pts => [(pts, matrixWorld)]
      | None => []
      end ++ flat_map meshes children
  end.

(** What one such node adds to the box. *)
Definition expandByMesh (b : Box3) (g : list vec3 * Matrix4) : Box3 :=
  union b (box_applyMatrix4 (setFromPoints (fst g)) (snd g)).

(** Induction over the scene graph, children included. *)
Fixpoint Object3D_ind (P : Object3D -> Prop)
    (step_case : forall g m cs, Forall P cs -> P (mkObject3D g m cs))
    (o : Object3D) {struct o} : P o :=
  match o with
  | mkObject3D g m cs =>
      step_case g m cs
        ((fix all (l : list Object3D) : Forall P l :=
            match l with
            | [] => Forall_nil P
            | child :: l' =>
                Forall_cons child (Object3D_ind P step_case child) (all l')
            end) cs)
  end.

Definition finite_mesh (g : list vec3 * Matrix4) : Prop :=
  Forall finite_vec (fst g) /\ finite_matrix (snd g).

Definition finite_object (o : Object3D) : Prop :=
  Forall finite_mesh (meshes o).

(** The object's geometry in world space: every vertex under the world
    matrix of its node. *)
Definition world_vertices (o : Object3D) : list vec3 :=
  flat_map (fun g => map (applyMatrix4 (snd g)) (fst g)) (meshes o).

(** For comparison, in the words of the specification: the minimal
    axis-aligned box enclosing all of the object's world-space geometry. *)
Definition spec_minimal_box (o : Object3D) : Box3 :=
  setFromPoints (world_vertices o).

(** ** Sample objects *)

(** A mesh whose geometry has no vertex, under a group. *)
Definition empty_mesh_scene : Object3D :=
  mkObject3D None identity [mkObject3D (Some []) identity []].

(** The cube with extent [4, 6] on each axis, given by its eight
    vertices. *)
Definition cube_4_6 : Object3D :=
  mkObject3D
    (Some [vfin 4 4 4; vfin 4 4 6; vfin 4 6 4; vfin 4 6 6;
           vfin 6 4 4; vfin 6 4 6; vfin 6 6 4; vfin 6 6 6])
    identity [].

(** The same cube as a unit [BoxGeometry] (vertices at -0.5 and 0.5) under
    a group, scaled by 2 and moved to (5, 5, 5). *)
Definition unit_cube_at_5 : Object3D :=
  mkObject3D None identity
    [mkObject3D
       (Some [vfin (-0.5) (-0.5) (-0.5); vfin (-0.5) (-0.5) 0.5;
              vfin (-0.5) 0.5 (-0.5); vfin (-0.5) 0.5 0.5;
              vfin 0.5 (-0.5) (-0.5); vfin 0.5 (-0.5) 0.5;
              vfin 0.5 0.5 (-0.5); vfin 0.5 0.5 0.5])
       (mkMatrix4 (Fin 2) (Fin 0) (Fin 0) (Fin 5)
                  (Fin 0) (Fin 2) (Fin 0) (Fin 5)
                  (Fin 0) (Fin 0) (Fin 2) (Fin 5))
       []].

(** A triangle in the plane y = 0, turned about the y axis by the angle
    with cosine 3/5 and sine 4/5 and scaled by 5 (the page itself turns
    its model about the y axis, by a quarter of pi). *)
Definition tilted_triangle : Object3D :=
  mkObject3D (Some [vfin 0 0 0; vfin 1 0 0; vfin 0 0 1])
             (mkMatrix4 (Fin 3) (Fin 0) (Fin 4) (Fin 0)
                        (Fin 0) (Fin 5) (Fin 0) (Fin 0)
                        (Fin (-4)) (Fin 0) (Fin 3) (Fin 0))
             [].

(** ** Canvas and fog *)

(** [near] and [far] of the camera given to [Canvas], and the two
    distances of [<fog args={['#040712', 10, 60]} />]. *)
Definition canvas_near : R := 0.1.
Definition canvas_far : R := 200.
Definition fog_near : R := 10.
Definition fog_far : R := 60.

(** ** The labels of the sliders *)

(** [Math.round(a)]: the nearest integer, a tie going up. *)
Definition Math_round (a : num) : num :=
  match a with
  | Fin x => Fin (IZR (Int_part (x + 0.5)))
  | _ => a
  end.

(** The text of a number: in fixed notation the digits of [n] with the
    point before the last [fractionDigits] of them and a sign, otherwise
    whatever [String(a)] is. *)
Inductive NumText : Type :=
| FixedPoint (negative : bool) (n : Z) (fractionDigits : nat)
| General (a : num).

(** [a.toFixed(f)]: the integer [n] with [n / 10^f] nearest to the
    magnitude, the larger one on a tie; no fixed notation from 10^21 on. *)
Definition toFixed (a : num) (f : nat) : NumText :=
  match a with
  | Fin x =>
      if Rle_dec (10 ^ 21) (Rabs x) then General a
      else if Rlt_dec x 0
           then FixedPoint true (Int_part (- x * 10 ^ f + 0.5)) f
           else FixedPoint false (Int_part (x * 10 ^ f + 0.5)) f
  | _ => General a
  end.

(** [{flySpeed.toFixed(2)}x] and [{Math.round(perspective)}] with its
    degree sign. *)
Definition speed_label (a : AppState) : NumText := toFixed (flySpeed a) 2.
Definition perspective_label (a : AppState) : num :=
  Math_round (perspective a).

(** ** setMountainFavicon *)

(** The calls on the 2D context, in the order they are made. *)
Inductive Paint : Type :=
| Color (css : String.string)
| LinearGradient (x0 y0 x1 y1 : num) (stops : list (num * String.string))
| RadialGradient (x0 y0 r0 x1 y1 r1 : num)
                 (stops : list (num * String.string)).

Inductive CanvasOp : Type :=
| fillStyle (p : Paint)
| fillRect (x y w h : num)
| beginPath
| arc (x y r startAngle endAngle : num)
| moveTo (x y : num)
| lineTo (x y : num)
| closePath
| fill.

(** [!a] on a number: true for 0 and for NaN. *)
Definition falsy (a : num) : bool :=
  match a with
  | NaN => true
  | Fin x => if Req_dec_T x 0 then true else false
  | _ => false
  end.

(** The inner function [drawMountain]; [size] is the constant of the
    enclosing function. *)
Definition drawMountain (size peakX peakY leftBase rightBase : num)
    (color : String.string) (snowWidth : num) : list CanvasOp :=
  [ beginPath; moveTo peakX peakY; lineTo leftBase size;
    lineTo rightBase size; closePath; fillStyle (Color color); fill ]
  ++ if falsy snowWidth then []
     else [ beginPath;
            moveTo peakX (peakY + size * Fin 0.02)%js;
            lineTo (peakX - snowWidth)%js (peakY + size * Fin 0.12)%js;
            lineTo peakX (peakY + size * Fin 0.09)%js;
            lineTo (peakX + snowWidth * Fin 1.1)%js
                   (peakY + size * Fin 0.14)%js;
            closePath;
            fillStyle (Color "rgba(255,255,255,0.9)"%string);
            fill ].

Definition favicon_size : num := Fin 64.

(** Everything [setMountainFavicon] draws. *)
Definition favicon_drawing : list CanvasOp :=
  let size := favicon_size in
  let sunX := (size * Fin 0.76)%js in
  let sunY := (size * Fin 0.26)%js in
  [ fillStyle (LinearGradient (Fin 0) (Fin 0) (Fin 0) size
                 [(Fin 0, "#0b1020"%string); (Fin 1, "#1a2740"%string)]);
    fillRect (Fin 0) (Fin 0) size size;
    fillStyle (RadialGradient sunX sunY (Fin 2) sunX sunY
                 (size * Fin 0.22)%js
                 [(Fin 0, "#f7d9a0"%string);
                  (Fin 1, "rgba(247, 217, 160, 0)"%string)]);
    beginPath;
    arc sunX sunY (size * Fin 0.18)%js (Fin 0) (Fin PI * Fin 2)%js;
    fill ]
  ++ drawMountain size (size * Fin 0.34)%js (size * Fin 0.36)%js
       (size * Fin 0.08)%js (size * Fin 0.64)%js "#162033"%string
       (size * Fin 0.08)%js
  ++ drawMountain size (size * Fin 0.62)%js (size * Fin 0.42)%js
       (size * Fin 0.34)%js (size * Fin 0.92)%js "#10182b"%string (Fin 0).

(** A [<link>] element: the three attributes the function writes, and
    the others. *)
Record LinkEl : Type := mkLinkEl {
  link_rel : String.string;
  link_type : String.string;
  link_href : String.string;
  link_others : list (String.string * String.string)
}.

(** The [<link>] elements of the document in tree order: those in
    [document.head], then the others. *)
Record Document : Type := mkDocument {
  doc_head : list LinkEl;
  doc_rest : list LinkEl
}.

Definition links (doc : Document) : list LinkEl :=
  doc_head doc ++ doc_rest doc.

(** [document.createElement('link')] *)
Definition createElement_link : LinkEl :=
  mkLinkEl ""%string ""%string ""%string [].

(** The first element that matches is replaced by its image. *)
Fixpoint update_first (matches : LinkEl -> bool) (f : LinkEl -> LinkEl)
    (ls : list LinkEl) : option (list LinkEl) :=
  match ls with
  | [] => None
  | l :: rest =>
      if matches l then Some (f l :: rest)
      else option_map (cons l) (update_first matches f rest)
  end.

Section Favicon.

(** What the browser decides: whether an element matches
    [link[rel~='icon']], and the PNG data URL of a canvas of a given size
    with a given drawing. *)
Variable icon_selector : LinkEl -> bool.
Variable toDataURL : num -> list CanvasOp -> String.string.

(** [document.querySelector("link[rel~='icon']")] *)
Definition querySelector (doc : Document) : option LinkEl :=
  find icon_selector (links doc).

(** The three assignments to [rel], [type] and [href]. *)
Definition set_icon (l : LinkEl) : LinkEl :=
  mkLinkEl "icon"%string "image/png"%string
           (toDataURL favicon_size favicon_drawing) (link_others l).

(** [setMountainFavicon()]; [has_ctx] tells whether [getContext('2d')]
    gave a context.  A link found by the selector is in the document and
    is changed in place; a new one has no parent and is appended to the
    head. *)
Definition setMountainFavicon (has_ctx : bool) (doc : Document) : Document :=
  if negb has_ctx then doc
  else
    match update_first icon_selector set_icon (doc_head doc) with
    | Some head' => mkDocument head' (doc_rest doc)
    | None =>
        match update_first icon_selector set_icon (doc_rest doc) with
        | Some rest' => mkDocument (doc_head doc) rest'
        | None =>
            mkDocument (doc_head doc ++ [set_icon createElement_link])
                       (doc_rest doc)
        end
    end.

End Favicon.

(** A selector that accepts the elements whose [rel] is exactly
    [icon]. *)
Definition rel_is_icon (l : LinkEl) : bool :=
  String.eqb (link_rel l) "icon"%string.

(** A document whose only link is the style sheet, and a stand-in for the
    PNG encoder. *)
Definition sample_document : Document :=
  mkDocument [mkLinkEl "stylesheet"%string "text/css"%string
                       "/src/App.css"%string []] [].

Definition sample_toDataURL (size : num) (drawing : list CanvasOp)
  : String.string := "data:image/png;base64,"%string.

(** ** More vocabulary *)

(** The time the frames of a run took together. *)
Fixpoint wall_time (es : list Event) : R :=
  match es with
  | [] => 0
  | Frame delta :: es' => delta + wall_time es'
  | _ :: es' => wall_time es'
  end.

(** A frame delta as a clock gives it: not negative. *)
Definition clock_event (ev : Event) : Prop :=
  match ev with Frame delta => 0 <= delta | _ => True end.


(** * Properties *)

(** ** The fly-over camera *)

Section FlyCamera_facts.

Variables (e d s : R) (tg : vec3) (fv : num) (c : Camera).

Lemma advance_fin : advance (Fin e) (Fin d) (Fin s) = Fin (e + d * s).
Proof. reflexivity. Qed.

Lemma frame_t_current :
  t_current (frame (mkFlyProps tg (Fin s) fv) (Fin d) (mkFlyState (Fin e) c))
  = Fin (e + d * s).
Proof. reflexivity. Qed.

Lemma frame_lookAt :
  lookAt (camera (frame (mkFlyProps tg (Fin s) fv) (Fin d)
                        (mkFlyState (Fin e) c)))
  = tg.
Proof. destruct tg; reflexivity. Qed.

End FlyCamera_facts.

Lemma zoomFactor_fin (t : R) : zoomFactor (Fin t) = Fin (Rmin (t * 1.2) 6).
Proof. reflexivity. Qed.

Lemma radius_fin (t : R) :
  radius (Fin t) = Fin (Rmax 20 (26 + - (Rmin (t * 1.2) 6 * 1.5))).
Proof. reflexivity. Qed.

Lemma frame_position_fin (e d s fx fy fz : R) (fv : num) (c : Camera) :
  let t := e + d * s in
  position (camera (frame (mkFlyProps (vfin fx fy fz) (Fin s) fv) (Fin d)
                          (mkFlyState (Fin e) c)))
  = vfin (fx + cos (t * 0.3) * Rmax 20 (26 + - (Rmin (t * 1.2) 6 * 1.5)))
         (fy + (12 + sin (t * 0.4) * 3))
         (fz + sin (t * 0.3) * Rmax 20 (26 + - (Rmin (t * 1.2) 6 * 1.5))).
Proof. reflexivity. Qed.

(** C1.  After a frame that leaves the accumulator at [t], the camera sits
    at [(fx + cos(0.3 t) r, fy + 12 + 3 sin(0.4 t), fz + sin(0.3 t) r)]
    with [r = max(20, 26 - 1.5 min(1.2 t, 6))] and looks at the focus
    [(fx, fy, fz)]; at [t = 0] and focus [(0, 0, 0)] that is the position
    [(26, 12, 0)] looking at [(0, 0, 0)]. *)
Theorem C1_frame_pose :
  (forall (e d s fx fy fz : R) (fv : num) (c : Camera),
      let st' := frame (mkFlyProps (vfin fx fy fz) (Fin s) fv) (Fin d)
                       (mkFlyState (Fin e) c) in
      let t := e + d * s in
      let r := Rmax 20 (26 - 1.5 * Rmin (1.2 * t) 6) in
      t_current st' = Fin t /\
      position (camera st')
      = vfin (fx + cos (0.3 * t) * r) (fy + 12 + 3 * sin (0.4 * t))
             (fz + sin (0.3 * t) * r) /\
      lookAt (camera st') = vfin fx fy fz) /\
  (forall (s : R) (fv : num) (c : Camera),
      let st' := frame (mkFlyProps (vfin 0 0 0) (Fin s) fv) (Fin 0)
                       (mount c) in
      t_current st' = Fin 0 /\
      position (camera st') = vfin 26 12 0 /\
      lookAt (camera st') = vfin 0 0 0).
Proof.
  split.
  - intros e d s fx fy fz fv c st' t r.
    split; [reflexivity | split; [| reflexivity]].
    unfold st'. rewrite frame_position_fin. fold t.
    replace (t * 0.3) with (0.3 * t) by lra.
    replace (t * 0.4) with (0.4 * t) by lra.
    replace (26 + - (Rmin (t * 1.2) 6 * 1.5)) with (26 - 1.5 * Rmin (1.2 * t) 6)
      by (replace (t * 1.2) with (1.2 * t) by lra; lra).
    fold r. unfold vfin. f_equal. f_equal. lra.
  - intros s fv c st'.
    split; [| split; [| reflexivity]].
    + unfold st', mount. rewrite frame_t_current. f_equal. lra.
    + unfold st', mount. rewrite frame_position_fin.
      replace (0 + 0 * s) with 0 by lra.
      rewrite !Rmult_0_l, cos_0, sin_0.
      rewrite (Rmin_left 0 6) by lra.
      rewrite (Rmax_right 20 (26 + - (0 * 1.5))) by lra.
      unfold vfin. f_equal; f_equal; lra.
Qed.

Lemma radius_floor (t : R) :
  20 <= Rmax 20 (26 + - (Rmin (t * 1.2) 6 * 1.5)).
Proof. apply Rmax_l. Qed.

(** The horizontal offset [(cos a * r, sin a * r)] has length [r]. *)
Lemma orbit_offset_length (a r : R) :
  0 <= r -> sqrt ((cos a * r) * (cos a * r) + (sin a * r) * (sin a * r)) = r.
Proof.
  intros Hr.
  replace ((cos a * r) * (cos a * r) + (sin a * r) * (sin a * r))
    with (r * r).
  - now apply sqrt_square.
  - pose proof (sin2_cos2 a) as H. unfold Rsqr in H.
    transitivity ((sin a * sin a + cos a * cos a) * (r * r)).
    + rewrite H. lra.
    + ring.
Qed.

(** C3.  The radius of every frame is at least 20, the horizontal distance
    from the focus to the camera is that radius, and so the camera is never
    at the point it looks at. *)
Theorem C3_radius_floor (e d s fx fy fz : R) (fv : num) (c : Camera) :
  let st' := frame (mkFlyProps (vfin fx fy fz) (Fin s) fv) (Fin d)
                   (mkFlyState (Fin e) c) in
  exists px py pz r : R,
    radius (t_current st') = Fin r /\
    r = Rmax 20 (26 - 1.5 * Rmin (1.2 * (e + d * s)) 6) /\
    20 <= r /\
    position (camera st') = vfin px py pz /\
    sqrt ((px - fx) * (px - fx) + (pz - fz) * (pz - fz)) = r /\
    position (camera st') <> lookAt (camera st').
Proof.
  intros st'. set (t := e + d * s).
  set (r := Rmax 20 (26 + - (Rmin (t * 1.2) 6 * 1.5))).
  assert (Hr : 20 <= r) by apply radius_floor.
  exists (fx + cos (t * 0.3) * r), (fy + (12 + sin (t * 0.4) * 3)),
         (fz + sin (t * 0.3) * r), r.
  assert (Hlen : sqrt ((fx + cos (t * 0.3) * r - fx)
                       * (fx + cos (t * 0.3) * r - fx)
                       + (fz + sin (t * 0.3) * r - fz)
                         * (fz + sin (t * 0.3) * r - fz)) = r).
  { replace (fx + cos (t * 0.3) * r - fx) with (cos (t * 0.3) * r) by lra.
    replace (fz + sin (t * 0.3) * r - fz) with (sin (t * 0.3) * r) by lra.
    apply orbit_offset_length. lra. }
  split; [reflexivity |].
  split; [| split; [exact Hr | split; [reflexivity | split; [exact Hlen |]]]].
  - unfold r. f_equal.
    replace (1.2 * t) with (t * 1.2) by lra. lra.
  - unfold st'. rewrite frame_position_fin, frame_lookAt. fold t. fold r.
    unfold vfin. intros Heq. injection Heq as Hx _ Hz.
    rewrite Hx in Hlen at 1 2. rewrite Hz in Hlen at 1 2.
    rewrite !Rminus_diag, Rmult_0_l, Rplus_0_l, sqrt_0 in Hlen. lra.
Qed.

(** C4.  A frame replaces the accumulator [e] by exactly [e + d * s], and
    for [d >= 0] and [s > 0] the new value is not below the old one. *)
Theorem C4_advance_monotone (e d s : R) (tg : vec3) (fv : num) (c : Camera) :
  let st' := frame (mkFlyProps tg (Fin s) fv) (Fin d) (mkFlyState (Fin e) c) in
  t_current st' = advance (Fin e) (Fin d) (Fin s) /\
  t_current st' = Fin (e + d * s) /\
  (0 <= d -> 0 < s -> e <= e + d * s).
Proof.
  intros st'. split; [reflexivity | split; [reflexivity |]].
  intros Hd Hs.
  assert (0 <= d * s) by (apply Rmult_le_pos; lra).
  lra.
Qed.

(** C5.  The zoom factor is at most 6 for every elapsed time, also an
    infinite one; at [t = 10] it is 6 and the radius is 20. *)
Theorem C5_zoom_saturates :
  (forall t : R, exists z : R,
      zoomFactor (Fin t) = Fin z /\ z = Rmin (1.2 * t) 6 /\ z <= 6) /\
  zoomFactor PInf = Fin 6 /\
  zoomFactor (Fin 10) = Fin 6 /\
  radius (Fin 10) = Fin 20.
Proof.
  split; [| split; [| split]].
  - intros t. exists (Rmin (t * 1.2) 6).
    split; [reflexivity | split].
    + f_equal. lra.
    + apply Rmin_r.
  - unfold zoomFactor. cbn. unfold scale_inf.
    destruct (Req_dec_T 1.2 0) as [H | _]; [lra |].
    destruct (Rlt_dec 0 1.2) as [_ | H]; [reflexivity | lra].
  - rewrite zoomFactor_fin. f_equal. apply Rmin_right. lra.
  - rewrite radius_fin. f_equal.
    rewrite (Rmin_right (10 * 1.2) 6) by lra.
    rewrite Rmax_left by lra. reflexivity.
Qed.

(** C7.  The height of every frame lies between 9 and 15. *)
Theorem C7_height_bounded (t : R) :
  exists h : R,
    height (Fin t) = Fin h /\ h = 12 + 3 * sin (0.4 * t) /\ 9 <= h <= 15.
Proof.
  exists (12 + sin (t * 0.4) * 3).
  split; [reflexivity |].
  replace (0.4 * t) with (t * 0.4) by lra.
  split; [lra |].
  pose proof (SIN_bound (t * 0.4)) as [Hlo Hhi]. lra.
Qed.

(** C8.  A change of speed leaves the accumulator as it is; the next frame
    adds [d * s2] to it, whatever the speed [s1] of the frames before. *)
Theorem C8_speed_change_not_retroactive :
  (forall (e d s1 s2 : R) (tg : vec3) (fv : num) (c : Camera),
      let before := mkFlyProps tg (Fin s1) fv in
      let after := mkFlyProps tg (Fin s2) fv in
      let st := mkFlyState (Fin e) c in
      t_current (frame after (Fin d) st) = Fin (e + d * s2) /\
      t_current (frame before (Fin d) st) = Fin (e + d * s1)) /\
  (forall (e d1 d2 s1 s2 : R) (tg : vec3) (fv : num) (c : Camera),
      t_current (frame (mkFlyProps tg (Fin s2) fv) (Fin d2)
                   (frame (mkFlyProps tg (Fin s1) fv) (Fin d1)
                      (mkFlyState (Fin e) c)))
      = Fin ((e + d1 * s1) + d2 * s2)) /\
  (forall (w : World) (k : nat),
      fly (step w (SpeedInput k)) = fly w /\
      forall d : R,
        t_current (fly (step (step w (SpeedInput k)) (Frame d)))
        = (t_current (fly w)
           + Fin d * Fin (range_value speed_slider k))%js).
Proof.
  split; [| split].
  - intros. split; reflexivity.
  - intros. reflexivity.
  - intros w k. split; [reflexivity |]. intros d'. reflexivity.
Qed.

(** C9.  The field of view is written to the camera's projection only;
    two values of [fov] with the same accumulator, speed and focus give
    the same position and the same look-at point. *)
Theorem C9_fov_not_in_pose :
  (forall (tg : vec3) (sp f1 f2 delta : num) (st : FlyState),
      let p1 := mkFlyProps tg sp f1 in
      let p2 := mkFlyProps tg sp f2 in
      let st1 := frame p1 delta (fov_effect p1 st) in
      let st2 := frame p2 delta (fov_effect p2 st) in
      position (camera st1) = position (camera st2) /\
      lookAt (camera st1) = lookAt (camera st2) /\
      t_current st1 = t_current st2) /\
  (forall (p : FlyProps) (st : FlyState),
      position (camera (fov_effect p st)) = position (camera st) /\
      lookAt (camera (fov_effect p st)) = lookAt (camera st) /\
      t_current (fov_effect p st) = t_current st /\
      fov (camera (fov_effect p st)) = fly_fov p) /\
  (forall (w : World) (k : nat) (d : R),
      let w1 := step w (Frame d) in
      let w2 := step (step w (PerspectiveInput k)) (Frame d) in
      position (camera (fly w1)) = position (camera (fly w2)) /\
      lookAt (camera (fly w1)) = lookAt (camera (fly w2))).
Proof.
  split; [| split].
  - intros. repeat split.
  - intros. repeat split.
  - intros. split; reflexivity.
Qed.

(** ** The sliders *)

(** The speed slider reports one of the 31 values 0.05, 0.06, ..., 0.35. *)
Lemma speed_slider_grid (k : nat) :
  exists j : nat,
    (j <= 30)%nat /\ range_value speed_slider k = 0.05 + INR j * 0.01.
Proof.
  unfold range_value, speed_slider; cbn [range_min range_max range_step].
  destruct (Nat.le_gt_cases k 30) as [Hk | Hk].
  - exists k. split; [exact Hk |].
    apply Rmin_right.
    apply le_INR in Hk. replace (INR 30) with 30 in Hk by (simpl; lra). lra.
  - exists 30%nat. split; [apply Nat.le_refl |].
    replace (INR 30) with 30 by (simpl; lra).
    rewrite Rmin_left; [lra |].
    apply Nat.lt_le_incl, le_INR in Hk.
    replace (INR 30) with 30 in Hk by (simpl; lra). lra.
Qed.

Lemma grid_in_range (j : nat) :
  (j <= 30)%nat -> 0.05 <= 0.05 + INR j * 0.01 <= 0.35.
Proof.
  intros Hj. pose proof (pos_INR j) as H0.
  apply le_INR in Hj. replace (INR 30) with 30 in Hj by (simpl; lra). lra.
Qed.

Lemma page_invariant_initial : page_invariant World_initial.
Proof.
  split.
  - exists 10%nat. split; [repeat constructor |].
    cbn. f_equal. lra.
  - exists 0. reflexivity.
Qed.

Lemma page_invariant_step (w : World) (ev : Event) :
  page_invariant w -> page_invariant (step w ev).
Proof.
  intros [[j [Hj Hs]] [e He]].
  destruct ev as [delta | k | k | ref]; cbn [step].
  - split; cbn [app fly].
    + exists j. split; assumption.
    + unfold fly_props, frame. cbn [t_current speed]. rewrite He, Hs.
      eexists. reflexivity.
  - split; cbn [app fly flySpeed].
    + destruct (speed_slider_grid k) as [j' [Hj' Hv]].
      exists j'. split; [exact Hj' | now rewrite Hv].
    + exists e. exact He.
  - split; cbn [app fly flySpeed].
    + exists j. split; assumption.
    + exists e. exact He.
  - split; cbn [app fly].
    + exists j. split; assumption.
    + exists e. exact He.
Qed.

Lemma run_snoc (w : World) (es : list Event) (ev : Event) :
  run w (es ++ [ev]) = step (run w es) ev.
Proof. unfold run. now rewrite fold_left_app. Qed.

Lemma page_invariant_reachable (w : World) :
  reachable w -> page_invariant w.
Proof.
  intros [es ->]. induction es as [| ev es IH] using rev_ind.
  - apply page_invariant_initial.
  - rewrite run_snoc. now apply page_invariant_step.
Qed.

(** C10.  The page starts at speed 0.15, and in every state it can reach
    the speed is one of the slider's values 0.05 + j * 0.01 with j <= 30,
    hence within [0.05, 0.35] and positive; a frame with a positive delta
    then leaves the accumulator strictly larger. *)
Theorem C10_slider_speed_positive :
  flySpeed (app World_initial) = Fin 0.15 /\
  (forall k : nat,
      0.05 <= range_value speed_slider k <= 0.35) /\
  (forall w : World,
      reachable w ->
      exists (s e : R) (j : nat),
        flySpeed (app w) = Fin s /\
        (j <= 30)%nat /\ s = 0.05 + INR j * 0.01 /\
        0.05 <= s <= 0.35 /\ 0 < s /\
        t_current (fly w) = Fin e /\
        forall delta : R,
          0 < delta ->
          exists e' : R,
            t_current (fly (step w (Frame delta))) = Fin e' /\ e < e').
Proof.
  split; [reflexivity | split].
  { intros k. destruct (speed_slider_grid k) as [j [Hj ->]].
    now apply grid_in_range. }
  intros w Hw.
  destruct (page_invariant_reachable w Hw) as [[j [Hj Hs]] [e He]].
  pose proof (grid_in_range j Hj) as Hrange.
  exists (0.05 + INR j * 0.01), e, j.
  split; [exact Hs |]. split; [exact Hj |]. split; [reflexivity |].
  split; [exact Hrange |]. split; [lra |]. split; [exact He |].
  intros delta Hdelta.
  exists (e + delta * (0.05 + INR j * 0.01)). split.
  - cbn [step fly]. unfold fly_props, frame. cbn [t_current speed].
    now rewrite He, Hs.
  - assert (0 < delta * (0.05 + INR j * 0.01)) by (apply Rmult_lt_0_compat; lra).
    lra.
Qed.

(** ** Box3 *)

(** *** Minimum and maximum of numbers *)

Lemma Math_min_assoc (a b c : num) :
  Math_min a (Math_min b c) = Math_min (Math_min a b) c.
Proof.
  destruct a, b, c; cbn; try reflexivity. f_equal. apply Rmin_assoc.
Qed.

Lemma Math_max_assoc (a b c : num) :
  Math_max a (Math_max b c) = Math_max (Math_max a b) c.
Proof.
  destruct a, b, c; cbn; try reflexivity. f_equal. apply Rmax_assoc.
Qed.

Lemma Math_min_PInf_l (a : num) : Math_min PInf a = a.
Proof. now destruct a. Qed.

Lemma Math_max_NInf_l (a : num) : Math_max NInf a = a.
Proof. now destruct a. Qed.

Lemma Math_min_PInf_r (a : num) : Math_min a PInf = a.
Proof. now destruct a. Qed.

Lemma Math_max_NInf_r (a : num) : Math_max a NInf = a.
Proof. now destruct a. Qed.

(** *** Union of boxes *)

Lemma union_assoc (a b c : Box3) : union a (union b c) = union (union a b) c.
Proof.
  unfold union, vmin, vmax; cbn [bmin bmax vx vy vz].
  now rewrite !Math_min_assoc, !Math_max_assoc.
Qed.

Lemma union_makeEmpty_l (b : Box3) : union makeEmpty b = b.
Proof.
  destruct b as [[x0 y0 z0] [x1 y1 z1]].
  unfold union, vmin, vmax, makeEmpty; cbn [bmin bmax vx vy vz].
  now rewrite !Math_min_PInf_l, !Math_max_NInf_l.
Qed.

Lemma union_makeEmpty_r (b : Box3) : union b makeEmpty = b.
Proof.
  destruct b as [[x0 y0 z0] [x1 y1 z1]].
  unfold union, vmin, vmax, makeEmpty; cbn [bmin bmax vx vy vz].
  now rewrite !Math_min_PInf_r, !Math_max_NInf_r.
Qed.

Lemma expandByPoint_union (b : Box3) (p : vec3) :
  expandByPoint b p = union b (mkBox3 p p).
Proof. reflexivity. Qed.

(** *** The scene graph, flattened *)

Lemma expandByObject_meshes (o : Object3D) :
  forall b : Box3, expandByObject o b = fold_left expandByMesh (meshes o) b.
Proof.
  induction o as [g m cs IH] using Object3D_ind. intros b.
  cbn [expandByObject meshes]. rewrite fold_left_app.
  assert (Hhead :
    match g with
    | Some pts => union b (box_applyMatrix4 (setFromPoints pts) m)
    | None => b
    end
    = fold_left expandByMesh
        match g with Some pts => [(pts, m)] | None => [] end b).
  { now destruct g. }
  rewrite Hhead. clear Hhead.
  generalize (fold_left expandByMesh
                match g with Some pts => [(pts, m)] | None => [] end b).
  induction IH as [| child cs' Hchild _ IHcs]; intros acc.
  - reflexivity.
  - cbn [fold_left flat_map]. rewrite fold_left_app, Hchild. apply IHcs.
Qed.

(** *** Enclosure *)

Lemma nle_min_l (a b q : num) : nle a q -> b <> NaN -> nle (Math_min a b) q.
Proof.
  destruct a, b, q; cbn; try tauto; try congruence.
  intros H _. eapply Rle_trans; [apply Rmin_l | exact H].
Qed.

Lemma nle_min_r (a b q : num) : nle b q -> a <> NaN -> nle (Math_min a b) q.
Proof.
  destruct a, b, q; cbn; try tauto; try congruence.
  intros H _. eapply Rle_trans; [apply Rmin_r | exact H].
Qed.

Lemma nle_max_l (a b q : num) : nle q a -> b <> NaN -> nle q (Math_max a b).
Proof.
  destruct a, b, q; cbn; try tauto; try congruence.
  intros H _. eapply Rle_trans; [exact H | apply Rmax_l].
Qed.

Lemma nle_max_r (a b q : num) : nle q b -> a <> NaN -> nle q (Math_max a b).
Proof.
  destruct a, b, q; cbn; try tauto; try congruence.
  intros H _. eapply Rle_trans; [exact H | apply Rmax_r].
Qed.

(** A tidy box has no NaN among its six coordinates. *)
Lemma tidy_no_NaN (b : Box3) :
  tidy b ->
  (vx (bmin b) <> NaN /\ vy (bmin b) <> NaN /\ vz (bmin b) <> NaN) /\
  (vx (bmax b) <> NaN /\ vy (bmax b) <> NaN /\ vz (bmax b) <> NaN).
Proof.
  intros [-> | (x0 & y0 & z0 & x1 & y1 & z1 & -> & _)];
    cbn; repeat split; discriminate.
Qed.

Lemma encloses_union_l (a b : Box3) (q : vec3) :
  tidy b -> encloses a q -> encloses (union a b) q.
Proof.
  intros Hb [[Hx0 Hx1] [[Hy0 Hy1] [Hz0 Hz1]]].
  destruct (tidy_no_NaN b Hb) as [(? & ? & ?) (? & ? & ?)].
  unfold encloses, union, vmin, vmax; cbn [bmin bmax vx vy vz].
  repeat split; auto using nle_min_l, nle_max_l.
Qed.

Lemma encloses_union_r (a b : Box3) (q : vec3) :
  tidy a -> encloses b q -> encloses (union a b) q.
Proof.
  intros Ha [[Hx0 Hx1] [[Hy0 Hy1] [Hz0 Hz1]]].
  destruct (tidy_no_NaN a Ha) as [(? & ? & ?) (? & ? & ?)].
  unfold encloses, union, vmin, vmax; cbn [bmin bmax vx vy vz].
  repeat split; auto using nle_min_r, nle_max_r.
Qed.

Lemma Rmin_le_Rmax (a b c d : R) : a <= c -> Rmin a b <= Rmax c d.
Proof.
  intros H. eapply Rle_trans; [apply Rmin_l |].
  eapply Rle_trans; [exact H | apply Rmax_l].
Qed.

Lemma tidy_union (a b : Box3) : tidy a -> tidy b -> tidy (union a b).
Proof.
  intros [-> | Ha] Hb.
  - now rewrite union_makeEmpty_l.
  - destruct Hb as [-> | Hb].
    + rewrite union_makeEmpty_r. now right.
    + destruct Ha as (x0 & y0 & z0 & x1 & y1 & z1 & -> & Hx & Hy & Hz).
      destruct Hb as (u0 & v0 & w0 & u1 & v1 & w1 & -> & Hu & Hv & Hw).
      right.
      exists (Rmin x0 u0), (Rmin y0 v0), (Rmin z0 w0),
             (Rmax x1 u1), (Rmax y1 v1), (Rmax z1 w1).
      split; [reflexivity |].
      repeat split; now apply Rmin_le_Rmax.
Qed.

Lemma finite_vec_inv (p : vec3) :
  finite_vec p -> exists x y z : R, p = vfin x y z.
Proof.
  destruct p as [[| | x |] [| | y |] [| | z |]]; cbn;
    intros (Hx & Hy & Hz); try contradiction.
  now exists x, y, z.
Qed.

Lemma tidy_point (p : vec3) : finite_vec p -> tidy (mkBox3 p p).
Proof.
  intros Hp. destruct (finite_vec_inv p Hp) as (x & y & z & ->).
  right. exists x, y, z, x, y, z. repeat split; apply Rle_refl.
Qed.

Lemma encloses_point (p : vec3) : finite_vec p -> encloses (mkBox3 p p) p.
Proof.
  intros Hp. destruct (finite_vec_inv p Hp) as (x & y & z & ->).
  unfold encloses; cbn. repeat split; apply Rle_refl.
Qed.

(** Expanding by finite points keeps a box tidy, keeps what it enclosed,
    and encloses the points. *)
Lemma expand_points_encloses (pts : list vec3) :
  Forall finite_vec pts ->
  forall b : Box3,
    tidy b ->
    tidy (fold_left expandByPoint pts b) /\
    (forall q, encloses b q -> encloses (fold_left expandByPoint pts b) q) /\
    (forall p, In p pts -> encloses (fold_left expandByPoint pts b) p).
Proof.
  induction 1 as [| p pts Hp _ IH]; intros b Hb; cbn [fold_left].
  - split; [exact Hb | split; [auto | intros p []]].
  - assert (Hb' : tidy (expandByPoint b p)).
    { rewrite expandByPoint_union.
      apply tidy_union; [exact Hb | now apply tidy_point]. }
    destruct (IH _ Hb') as (Htidy & Hkeep & Hnew).
    split; [exact Htidy | split].
    + intros q Hq. apply Hkeep. rewrite expandByPoint_union.
      apply encloses_union_l; [now apply tidy_point | exact Hq].
    + intros q [<- | Hq]; [| now apply Hnew].
      apply Hkeep. rewrite expandByPoint_union.
      apply encloses_union_r; [exact Hb | now apply encloses_point].
Qed.

Lemma tidy_makeEmpty : tidy makeEmpty.
Proof. now left. Qed.

Lemma setFromPoints_encloses (pts : list vec3) :
  Forall finite_vec pts ->
  tidy (setFromPoints pts) /\
  forall p, In p pts -> encloses (setFromPoints pts) p.
Proof.
  intros Hpts.
  destruct (expand_points_encloses pts Hpts makeEmpty tidy_makeEmpty)
    as (Htidy & _ & Hnew).
  now split.
Qed.

Lemma encloses_makeEmpty (q : vec3) : ~ encloses makeEmpty q.
Proof.
  intros [[H0 H1] _]. cbn in H0, H1. now destruct (vx q).
Qed.

(** A tidy box that encloses a point has finite corners. *)
Lemma tidy_inhabited (b : Box3) (q : vec3) :
  tidy b -> encloses b q -> finite_box b.
Proof.
  intros [-> | Hb] Hq; [| exact Hb]. now apply encloses_makeEmpty in Hq.
Qed.

(** *** The least enclosing box *)

Lemma nle_min_glb (m a p : num) :
  nle m a -> nle m p -> nle m (Math_min a p).
Proof.
  destruct m, a, p; cbn; try tauto. intros Ha Hp. now apply Rmin_glb.
Qed.

Lemma nle_max_lub (m a p : num) :
  nle a m -> nle p m -> nle (Math_max a p) m.
Proof.
  destruct m, a, p; cbn; try tauto. intros Ha Hp. now apply Rmax_lub.
Qed.

Lemma within_expandByPoint (a b : Box3) (p : vec3) :
  within a b -> encloses b p -> within (expandByPoint a p) b.
Proof.
  intros [[Hx0 Hx1] [[Hy0 Hy1] [Hz0 Hz1]]] [[Px0 Px1] [[Py0 Py1] [Pz0 Pz1]]].
  unfold within, expandByPoint, vmin, vmax; cbn [bmin bmax vx vy vz].
  repeat split; auto using nle_min_glb, nle_max_lub.
Qed.

Lemma nle_PInf (a b : num) : nle a b -> nle a PInf.
Proof. destruct a, b; cbn; tauto. Qed.

Lemma nle_NInf (a b : num) : nle a b -> nle NInf b.
Proof. destruct a, b; cbn; tauto. Qed.

Lemma within_makeEmpty (b : Box3) (p : vec3) :
  encloses b p -> within makeEmpty b.
Proof.
  intros [[Px0 Px1] [[Py0 Py1] [Pz0 Pz1]]].
  unfold within, makeEmpty; cbn [bmin bmax vx vy vz].
  repeat split; eauto using nle_PInf, nle_NInf.
Qed.

Lemma within_expand_points (b : Box3) (pts : list vec3) :
  (forall p, In p pts -> encloses b p) ->
  forall a : Box3, within a b -> within (fold_left expandByPoint pts a) b.
Proof.
  induction pts as [| p pts IH]; intros Hpts a Ha; cbn [fold_left].
  - exact Ha.
  - apply IH; [intros q Hq; apply Hpts; now right |].
    apply within_expandByPoint; [exact Ha | apply Hpts; now left].
Qed.

(** The box of [setFromPoints] lies in every box that encloses the
    points. *)
Lemma setFromPoints_least (pts : list vec3) (b : Box3) :
  pts <> [] ->
  (forall p, In p pts -> encloses b p) ->
  within (setFromPoints pts) b.
Proof.
  intros Hne Hpts. apply within_expand_points; [exact Hpts |].
  destruct pts as [| p pts]; [contradiction |].
  apply (within_makeEmpty b p), Hpts. now left.
Qed.

(** *** A box under a world matrix *)

(** An affine function on a box is bounded by its values at the corners. *)
Lemma affine_upper (a b c d x0 x1 y0 y1 z0 z1 x y z U : R) :
  x0 <= x <= x1 -> y0 <= y <= y1 -> z0 <= z <= z1 ->
  a * x0 + b * y0 + c * z0 + d <= U ->
  a * x0 + b * y0 + c * z1 + d <= U ->
  a * x0 + b * y1 + c * z0 + d <= U ->
  a * x0 + b * y1 + c * z1 + d <= U ->
  a * x1 + b * y0 + c * z0 + d <= U ->
  a * x1 + b * y0 + c * z1 + d <= U ->
  a * x1 + b * y1 + c * z0 + d <= U ->
  a * x1 + b * y1 + c * z1 + d <= U ->
  a * x + b * y + c * z + d <= U.
Proof.
  intros Hx Hy Hz H000 H001 H010 H011 H100 H101 H110 H111.
  assert (Ha : a * x <= a * x0 \/ a * x <= a * x1).
  { destruct (Rle_dec 0 a); [right | left]; nra. }
  assert (Hb : b * y <= b * y0 \/ b * y <= b * y1).
  { destruct (Rle_dec 0 b); [right | left]; nra. }
  assert (Hc : c * z <= c * z0 \/ c * z <= c * z1).
  { destruct (Rle_dec 0 c); [right | left]; nra. }
  destruct Ha, Hb, Hc; lra.
Qed.

Lemma affine_lower (a b c d x0 x1 y0 y1 z0 z1 x y z L : R) :
  x0 <= x <= x1 -> y0 <= y <= y1 -> z0 <= z <= z1 ->
  L <= a * x0 + b * y0 + c * z0 + d ->
  L <= a * x0 + b * y0 + c * z1 + d ->
  L <= a * x0 + b * y1 + c * z0 + d ->
  L <= a * x0 + b * y1 + c * z1 + d ->
  L <= a * x1 + b * y0 + c * z0 + d ->
  L <= a * x1 + b * y0 + c * z1 + d ->
  L <= a * x1 + b * y1 + c * z0 + d ->
  L <= a * x1 + b * y1 + c * z1 + d ->
  L <= a * x + b * y + c * z + d.
Proof.
  intros Hx Hy Hz H000 H001 H010 H011 H100 H101 H110 H111.
  assert (Ha : a * x0 <= a * x \/ a * x1 <= a * x).
  { destruct (Rle_dec 0 a); [left | right]; nra. }
  assert (Hb : b * y0 <= b * y \/ b * y1 <= b * y).
  { destruct (Rle_dec 0 b); [left | right]; nra. }
  assert (Hc : c * z0 <= c * z \/ c * z1 <= c * z).
  { destruct (Rle_dec 0 c); [left | right]; nra. }
  destruct Ha, Hb, Hc; lra.
Qed.

Lemma ltb_fin_false (x y : R) : y <= x -> ltb (Fin x) (Fin y) = false.
Proof. intros H. cbn. destruct (Rlt_dec x y); [lra | reflexivity]. Qed.

Lemma isEmpty_makeEmpty : isEmpty makeEmpty = true.
Proof. reflexivity. Qed.

Lemma isEmpty_finite_box (b : Box3) : finite_box b -> isEmpty b = false.
Proof.
  intros (x0 & y0 & z0 & x1 & y1 & z1 & -> & Hx & Hy & Hz).
  unfold isEmpty, vfin; cbn [bmin bmax vx vy vz].
  now rewrite !ltb_fin_false.
Qed.

Lemma finite_matrix_inv (m : Matrix4) :
  finite_matrix m ->
  exists a1 b1 c1 d1 a2 b2 c2 d2 a3 b3 c3 d3 : R,
    m = mkMatrix4 (Fin a1) (Fin b1) (Fin c1) (Fin d1)
                  (Fin a2) (Fin b2) (Fin c2) (Fin d2)
                  (Fin a3) (Fin b3) (Fin c3) (Fin d3).
Proof.
  destruct m as [e11 e12 e13 e14 e21 e22 e23 e24 e31 e32 e33 e34].
  unfold finite_matrix; cbn.
  intros ((H11 & H12 & H13 & H14) & (H21 & H22 & H23 & H24)
          & (H31 & H32 & H33 & H34)).
  destruct e11, e12, e13, e14; try contradiction.
  destruct e21, e22, e23, e24; try contradiction.
  destruct e31, e32, e33, e34; try contradiction.
  repeat eexists.
Qed.

Lemma encloses_finite_box_inv (x0 y0 z0 x1 y1 z1 : R) (q : vec3) :
  encloses (mkBox3 (vfin x0 y0 z0) (vfin x1 y1 z1)) q ->
  exists x y z : R,
    q = vfin x y z /\ x0 <= x <= x1 /\ y0 <= y <= y1 /\ z0 <= z <= z1.
Proof.
  destruct q as [qx qy qz]. unfold encloses, vfin; cbn [bmin bmax vx vy vz].
  intros [[Hx0 Hx1] [[Hy0 Hy1] [Hz0 Hz1]]].
  destruct qx as [| | x |]; cbn in Hx0, Hx1; try contradiction.
  destruct qy as [| | y |]; cbn in Hy0, Hy1; try contradiction.
  destruct qz as [| | z |]; cbn in Hz0, Hz1; try contradiction.
  exists x, y, z. repeat split; assumption.
Qed.

Lemma corners_world_finite (b : Box3) (m : Matrix4) :
  finite_box b -> finite_matrix m ->
  Forall finite_vec (map (applyMatrix4 m) (corners b)).
Proof.
  intros (x0 & y0 & z0 & x1 & y1 & z1 & -> & _) Hm.
  destruct (finite_matrix_inv m Hm)
    as (a1 & b1 & c1 & d1 & a2 & b2 & c2 & d2 & a3 & b3 & c3 & d3 & ->).
  cbn. repeat constructor.
Qed.

Lemma tidy_box_applyMatrix4 (b : Box3) (m : Matrix4) :
  tidy b -> finite_matrix m -> tidy (box_applyMatrix4 b m).
Proof.
  intros [-> | Hb] Hm; unfold box_applyMatrix4.
  - rewrite isEmpty_makeEmpty. now left.
  - rewrite (isEmpty_finite_box b Hb).
    now apply setFromPoints_encloses, corners_world_finite.
Qed.

(** The box of the eight carried corners encloses every carried point of
    the box. *)
Lemma box_applyMatrix4_encloses (b : Box3) (m : Matrix4) (q : vec3) :
  finite_box b -> finite_matrix m -> encloses b q ->
  encloses (box_applyMatrix4 b m) (applyMatrix4 m q).
Proof.
  intros Hb Hm Hq.
  pose proof (corners_world_finite b m Hb Hm) as Hfin.
  destruct (setFromPoints_encloses _ Hfin) as [Htidy Hcorner].
  unfold box_applyMatrix4. rewrite (isEmpty_finite_box b Hb).
  destruct Hb as (x0 & y0 & z0 & x1 & y1 & z1 & -> & Hx & Hy & Hz).
  destruct (finite_matrix_inv m Hm)
    as (a1 & b1 & c1 & d1 & a2 & b2 & c2 & d2 & a3 & b3 & c3 & d3 & ->).
  destruct (encloses_finite_box_inv _ _ _ _ _ _ _ Hq)
    as (x & y & z & -> & Hqx & Hqy & Hqz).
  set (world := setFromPoints _) in *.
  assert (Hw : finite_box world).
  { apply (tidy_inhabited world _ Htidy (Hcorner _ (or_introl eq_refl))). }
  destruct Hw as (u0 & v0 & w0 & u1 & v1 & w1 & Hworld & _).
  rewrite Hworld in *. clear world Hworld Htidy Hfin Hq.
  cbn [map corners bmin bmax vx vy vz vfin In] in Hcorner.
  pose proof (Hcorner _ (or_introl eq_refl)) as H000.
  pose proof (Hcorner _ (or_intror (or_introl eq_refl))) as H001.
  pose proof (Hcorner _ (or_intror (or_intror (or_introl eq_refl)))) as H010.
  pose proof (Hcorner _ (or_intror (or_intror (or_intror (or_introl eq_refl)))))
    as H011.
  pose proof (Hcorner _ (or_intror (or_intror (or_intror (or_intror
                (or_introl eq_refl)))))) as H100.
  pose proof (Hcorner _ (or_intror (or_intror (or_intror (or_intror
                (or_intror (or_introl eq_refl))))))) as H101.
  pose proof (Hcorner _ (or_intror (or_intror (or_intror (or_intror
                (or_intror (or_intror (or_introl eq_refl)))))))) as H110.
  pose proof (Hcorner _ (or_intror (or_intror (or_intror (or_intror
                (or_intror (or_intror (or_intror (or_introl eq_refl)))))))))
    as H111.
  clear Hcorner.
  unfold encloses, applyMatrix4, vfin in *.
  cbn [bmin bmax vx vy vz m11 m12 m13 m14 m21 m22 m23 m24 m31 m32 m33 m34
       add mul nle] in *.
  destruct H000 as [[? ?] [[? ?] [? ?]]], H001 as [[? ?] [[? ?] [? ?]]],
           H010 as [[? ?] [[? ?] [? ?]]], H011 as [[? ?] [[? ?] [? ?]]],
           H100 as [[? ?] [[? ?] [? ?]]], H101 as [[? ?] [[? ?] [? ?]]],
           H110 as [[? ?] [[? ?] [? ?]]], H111 as [[? ?] [[? ?] [? ?]]].
  repeat split;
    first [ eapply (affine_lower _ _ _ _ x0 x1 y0 y1 z0 z1); eassumption
          | eapply (affine_upper _ _ _ _ x0 x1 y0 y1 z0 z1); eassumption ].
Qed.

(** *** The box of an object *)

(** Adding finite meshes keeps a box tidy, keeps what it enclosed, and
    encloses every vertex in world space. *)
Lemma expand_meshes_encloses (gs : list (list vec3 * Matrix4)) :
  Forall finite_mesh gs ->
  forall b : Box3,
    tidy b ->
    tidy (fold_left expandByMesh gs b) /\
    (forall q, encloses b q -> encloses (fold_left expandByMesh gs b) q) /\
    (forall g v, In g gs -> In v (fst g) ->
                 encloses (fold_left expandByMesh gs b)
                          (applyMatrix4 (snd g) v)).
Proof.
  induction 1 as [| g gs [Hpts Hm] _ IH]; intros b Hb; cbn [fold_left].
  - split; [exact Hb | split; [auto | intros g v []]].
  - destruct (setFromPoints_encloses (fst g) Hpts) as [Hlocal Hin].
    pose proof (tidy_box_applyMatrix4 _ _ Hlocal Hm) as Hworld.
    assert (Hb' : tidy (expandByMesh b g)) by now apply tidy_union.
    destruct (IH _ Hb') as (Htidy & Hkeep & Hnew).
    split; [exact Htidy | split].
    + intros q Hq. apply Hkeep. now apply encloses_union_l.
    + intros g' v [<- | Hg'] Hv; [| now apply Hnew].
      apply Hkeep. apply encloses_union_r; [exact Hb |].
      apply box_applyMatrix4_encloses; [| exact Hm | now apply Hin].
      exact (tidy_inhabited _ _ Hlocal (Hin v Hv)).
Qed.

Lemma setFromObject_meshes (o : Object3D) :
  setFromObject o = fold_left expandByMesh (meshes o) makeEmpty.
Proof. apply expandByObject_meshes. Qed.

Lemma setFromObject_encloses (o : Object3D) :
  finite_object o ->
  tidy (setFromObject o) /\
  forall p, In p (world_vertices o) -> encloses (setFromObject o) p.
Proof.
  intros Ho. rewrite setFromObject_meshes.
  destruct (expand_meshes_encloses _ Ho makeEmpty tidy_makeEmpty)
    as (Htidy & _ & Hnew).
  split; [exact Htidy |].
  intros p Hp. unfold world_vertices in Hp.
  apply in_flat_map in Hp as (g & Hg & Hp).
  apply in_map_iff in Hp as (v & <- & Hv).
  now apply Hnew.
Qed.

(** The centre of a box with finite corners. *)
Lemma getCenter_finite (x0 y0 z0 x1 y1 z1 : R) :
  x0 <= x1 -> y0 <= y1 -> z0 <= z1 ->
  getCenter (mkBox3 (vfin x0 y0 z0) (vfin x1 y1 z1))
  = vfin ((x0 + x1) * 0.5) ((y0 + y1) * 0.5) ((z0 + z1) * 0.5).
Proof.
  intros Hx Hy Hz. unfold getCenter.
  rewrite isEmpty_finite_box; [reflexivity |].
  now exists x0, y0, z0, x1, y1, z1.
Qed.

Lemma getCenter_empty (b : Box3) :
  isEmpty b = true -> getCenter b = vfin 0 0 0.
Proof. intros H. unfold getCenter. now rewrite H. Qed.

Lemma computeFocus_getCenter (o : Object3D) :
  computeFocus o = getCenter (setFromObject o).
Proof. unfold computeFocus. now destruct (getCenter (setFromObject o)). Qed.

(** An object without any vertex has the empty box. *)
Lemma setFromObject_no_vertices (o : Object3D) :
  world_vertices o = [] -> setFromObject o = makeEmpty.
Proof.
  rewrite setFromObject_meshes. unfold world_vertices.
  induction (meshes o) as [| g gs IH]; cbn [fold_left flat_map];
    [reflexivity |].
  intros H. apply app_eq_nil in H as [Hg Hgs]. apply map_eq_nil in Hg.
  unfold expandByMesh at 2. rewrite Hg. cbn [setFromPoints fold_left].
  unfold box_applyMatrix4. rewrite isEmpty_makeEmpty, union_makeEmpty_l.
  now apply IH.
Qed.

(** *** Evaluation on concrete geometry *)

Ltac no_minmax a :=
  lazymatch a with
  | context [Rmin _ _] => fail
  | context [Rmax _ _] => fail
  | _ => idtac
  end.

(** Decides the comparisons of a box computation on literals, innermost
    first. *)
Ltac eval_real :=
  repeat match goal with
  | |- context [Rmin ?a ?b] =>
      no_minmax a; no_minmax b;
      first [rewrite (Rmin_left a b) by lra | rewrite (Rmin_right a b) by lra]
  | |- context [Rmax ?a ?b] =>
      no_minmax a; no_minmax b;
      first [rewrite (Rmax_left a b) by lra | rewrite (Rmax_right a b) by lra]
  | |- context [Rlt_dec ?a ?b] =>
      no_minmax a; no_minmax b;
      destruct (Rlt_dec a b); [try lra | try lra]
  end.

Ltac unfold_box :=
  cbv [setFromPoints fold_left map corners box_applyMatrix4 applyMatrix4
       union expandByPoint vmin vmax makeEmpty isEmpty bmin bmax
       vx vy vz vfin m11 m12 m13 m14 m21 m22 m23 m24 m31 m32 m33 m34
       Math_min Math_max ltb add mul orb identity fst snd].

Ltac box_eq := unfold_box; eval_real; repeat f_equal; lra.

(** The box of one mesh. *)
Lemma setFromObject_single (pts : list vec3) (m : Matrix4) :
  setFromObject (mkObject3D (Some pts) m [])
  = box_applyMatrix4 (setFromPoints pts) m.
Proof.
  rewrite setFromObject_meshes. cbn [meshes flat_map Datatypes.app fold_left].
  unfold expandByMesh. cbn [fst snd]. apply union_makeEmpty_l.
Qed.

Lemma setFromObject_group_single (pts : list vec3) (m m' : Matrix4) :
  setFromObject (mkObject3D None m' [mkObject3D (Some pts) m []])
  = box_applyMatrix4 (setFromPoints pts) m.
Proof.
  rewrite setFromObject_meshes. cbn [meshes flat_map Datatypes.app fold_left].
  unfold expandByMesh. cbn [fst snd]. apply union_makeEmpty_l.
Qed.

Lemma cube_4_6_box :
  setFromObject cube_4_6 = mkBox3 (vfin 4 4 4) (vfin 6 6 6).
Proof.
  unfold cube_4_6. rewrite setFromObject_single.
  assert (Hlocal :
    setFromPoints [vfin 4 4 4; vfin 4 4 6; vfin 4 6 4; vfin 4 6 6;
                   vfin 6 4 4; vfin 6 4 6; vfin 6 6 4; vfin 6 6 6]
    = mkBox3 (vfin 4 4 4) (vfin 6 6 6)) by box_eq.
  rewrite Hlocal. box_eq.
Qed.

Lemma unit_cube_at_5_box :
  setFromObject unit_cube_at_5 = mkBox3 (vfin 4 4 4) (vfin 6 6 6).
Proof.
  unfold unit_cube_at_5. rewrite setFromObject_group_single.
  assert (Hlocal :
    setFromPoints
      [vfin (-0.5) (-0.5) (-0.5); vfin (-0.5) (-0.5) 0.5;
       vfin (-0.5) 0.5 (-0.5); vfin (-0.5) 0.5 0.5;
       vfin 0.5 (-0.5) (-0.5); vfin 0.5 (-0.5) 0.5;
       vfin 0.5 0.5 (-0.5); vfin 0.5 0.5 0.5]
    = mkBox3 (vfin (-0.5) (-0.5) (-0.5)) (vfin 0.5 0.5 0.5)) by box_eq.
  rewrite Hlocal. box_eq.
Qed.

Lemma tilted_triangle_box :
  setFromObject tilted_triangle = mkBox3 (vfin 0 0 (-4)) (vfin 7 0 3).
Proof.
  unfold tilted_triangle. rewrite setFromObject_single.
  assert (Hlocal :
    setFromPoints [vfin 0 0 0; vfin 1 0 0; vfin 0 0 1]
    = mkBox3 (vfin 0 0 0) (vfin 1 0 1)) by box_eq.
  rewrite Hlocal. box_eq.
Qed.

Lemma tilted_triangle_world :
  world_vertices tilted_triangle = [vfin 0 0 0; vfin 3 0 (-4); vfin 4 0 3].
Proof.
  cbv [world_vertices tilted_triangle meshes flat_map Datatypes.app fst snd map
       applyMatrix4 vfin vx vy vz add mul
       m11 m12 m13 m14 m21 m22 m23 m24 m31 m32 m33 m34].
  repeat f_equal; lra.
Qed.

Lemma tilted_triangle_minimal :
  spec_minimal_box tilted_triangle = mkBox3 (vfin 0 0 (-4)) (vfin 4 0 3).
Proof.
  unfold spec_minimal_box. rewrite tilted_triangle_world. box_eq.
Qed.

(** *** A mesh that is not transformed *)

Lemma applyMatrix4_identity (p : vec3) :
  finite_vec p -> applyMatrix4 identity p = p.
Proof.
  intros Hp. destruct (finite_vec_inv p Hp) as (x & y & z & ->).
  cbv [applyMatrix4 identity vfin vx vy vz add mul
       m11 m12 m13 m14 m21 m22 m23 m24 m31 m32 m33 m34].
  f_equal; f_equal; lra.
Qed.

Lemma box_applyMatrix4_identity (b : Box3) :
  finite_box b -> box_applyMatrix4 b identity = b.
Proof.
  intros (x0 & y0 & z0 & x1 & y1 & z1 & -> & Hx & Hy & Hz). box_eq.
Qed.

Lemma world_vertices_identity (pts : list vec3) :
  Forall finite_vec pts ->
  world_vertices (mkObject3D (Some pts) identity []) = pts.
Proof.
  intros Hpts. unfold world_vertices.
  cbn [meshes flat_map Datatypes.app fst snd]. rewrite app_nil_r.
  induction Hpts as [| p pts Hp _ IH]; cbn [map]; [reflexivity |].
  now rewrite IH, applyMatrix4_identity.
Qed.

(** Without a transform the box is the minimal one. *)
Lemma setFromObject_identity_minimal (pts : list vec3) :
  Forall finite_vec pts -> pts <> [] ->
  setFromObject (mkObject3D (Some pts) identity [])
  = spec_minimal_box (mkObject3D (Some pts) identity []).
Proof.
  intros Hpts Hne. unfold spec_minimal_box.
  rewrite setFromObject_single, world_vertices_identity by exact Hpts.
  apply box_applyMatrix4_identity.
  destruct (setFromPoints_encloses pts Hpts) as [Htidy Hin].
  destruct pts as [| p pts]; [contradiction |].
  exact (tidy_inhabited _ p Htidy (Hin p (or_introl eq_refl))).
Qed.

(** ** The page *)

Lemma page_invariant_run (es : list Event) :
  forall w : World, page_invariant w -> page_invariant (run w es).
Proof.
  induction es as [| ev es IH]; intros w Hw; cbn [run fold_left].
  - exact Hw.
  - apply IH. now apply page_invariant_step.
Qed.

Lemma keeps_target_step (w : World) (ev : Event) :
  keeps_target ev -> scene_target (step w ev) = scene_target w.
Proof. destruct ev; cbn; intros H; [reflexivity .. | contradiction]. Qed.

Lemma keeps_target_run (es : list Event) :
  Forall keeps_target es ->
  forall w : World, scene_target (run w es) = scene_target w.
Proof.
  induction 1 as [| ev es Hev _ IH]; intros w; cbn [run fold_left].
  - reflexivity.
  - unfold run in IH. now rewrite IH, keeps_target_step.
Qed.

(** A frame of the page, for a finite accumulator and speed and a finite
    focus. *)
Lemma step_frame_pose (w : World) (e s fx fy fz delta : R) :
  t_current (fly w) = Fin e ->
  flySpeed (app w) = Fin s ->
  scene_target w = vfin fx fy fz ->
  let t := e + delta * s in
  let r := Rmax 20 (26 + - (Rmin (t * 1.2) 6 * 1.5)) in
  let cam := camera (fly (step w (Frame delta))) in
  lookAt cam = vfin fx fy fz /\
  position cam = vfin (fx + cos (t * 0.3) * r) (fy + (12 + sin (t * 0.4) * 3))
                      (fz + sin (t * 0.3) * r).
Proof.
  intros He Hs Htg. cbn [step fly]. unfold fly_props, frame.
  cbn [t_current speed target camera position lookAt].
  rewrite He, Hs, Htg. split; reflexivity.
Qed.

(** ** The bounds fitter *)

(** C6, as stated, fails on a turned mesh: the box of [setFromObject] is
    wider than the minimal box of the world-space vertices, and its centre
    is another point. *)
Lemma C6_rotated_mesh_not_minimal :
  world_vertices tilted_triangle = [vfin 0 0 0; vfin 3 0 (-4); vfin 4 0 3] /\
  spec_minimal_box tilted_triangle = mkBox3 (vfin 0 0 (-4)) (vfin 4 0 3) /\
  Forall (encloses (mkBox3 (vfin 0 0 (-4)) (vfin 4 0 3)))
         (world_vertices tilted_triangle) /\
  setFromObject tilted_triangle = mkBox3 (vfin 0 0 (-4)) (vfin 7 0 3) /\
  ~ within (setFromObject tilted_triangle) (spec_minimal_box tilted_triangle) /\
  getCenter (spec_minimal_box tilted_triangle) = vfin 2 0 (-0.5) /\
  computeFocus tilted_triangle = vfin 3.5 0 (-0.5) /\
  computeFocus tilted_triangle <> getCenter (spec_minimal_box tilted_triangle).
Proof.
  assert (Hmin : getCenter (spec_minimal_box tilted_triangle)
                 = vfin 2 0 (-0.5)).
  { rewrite tilted_triangle_minimal, getCenter_finite by lra.
    unfold vfin. repeat f_equal; lra. }
  assert (Hcode : computeFocus tilted_triangle = vfin 3.5 0 (-0.5)).
  { rewrite computeFocus_getCenter, tilted_triangle_box, getCenter_finite
      by lra.
    unfold vfin. repeat f_equal; lra. }
  split; [exact tilted_triangle_world |].
  split; [exact tilted_triangle_minimal |].
  split.
  { rewrite tilted_triangle_world.
    repeat apply Forall_cons; try apply Forall_nil;
      unfold encloses, vfin; cbn [bmin bmax vx vy vz nle]; lra. }
  split; [exact tilted_triangle_box |].
  split.
  { rewrite tilted_triangle_box, tilted_triangle_minimal.
    unfold within, vfin; cbn [bmin bmax vx vy vz nle]. lra. }
  split; [exact Hmin |]. split; [exact Hcode |].
  rewrite Hmin, Hcode. unfold vfin. intros H. injection H as H. lra.
Qed.

(** C6, amended.  The focus is the centre of an axis-aligned box that
    encloses all of the object's world-space geometry: every mesh adds its
    local bounding box carried to world space.  The minimal box of the
    geometry lies in it, and for a mesh that is not transformed the two
    coincide.  For the cube with extent [4, 6] on each axis the focus is
    (5, 5, 5). *)
Theorem C6_focus_is_box_centre :
  (forall o : Object3D,
      finite_object o -> world_vertices o <> [] ->
      exists x0 y0 z0 x1 y1 z1 : R,
        setFromObject o = mkBox3 (vfin x0 y0 z0) (vfin x1 y1 z1) /\
        (forall p, In p (world_vertices o) -> encloses (setFromObject o) p) /\
        computeFocus o
        = vfin ((x0 + x1) * 0.5) ((y0 + y1) * 0.5) ((z0 + z1) * 0.5)) /\
  (forall o : Object3D,
      finite_object o -> world_vertices o <> [] ->
      within (spec_minimal_box o) (setFromObject o)) /\
  (forall pts : list vec3,
      Forall finite_vec pts -> pts <> [] ->
      setFromObject (mkObject3D (Some pts) identity [])
      = spec_minimal_box (mkObject3D (Some pts) identity [])) /\
  (forall o : Object3D,
      setFromObject o = mkBox3 (vfin 4 4 4) (vfin 6 6 6) ->
      computeFocus o = vfin 5 5 5) /\
  setFromObject cube_4_6 = mkBox3 (vfin 4 4 4) (vfin 6 6 6) /\
  computeFocus cube_4_6 = vfin 5 5 5 /\
  setFromObject unit_cube_at_5 = mkBox3 (vfin 4 4 4) (vfin 6 6 6) /\
  computeFocus unit_cube_at_5 = vfin 5 5 5.
Proof.
  assert (Hcube : forall o : Object3D,
             setFromObject o = mkBox3 (vfin 4 4 4) (vfin 6 6 6) ->
             computeFocus o = vfin 5 5 5).
  { intros o Ho. rewrite computeFocus_getCenter, Ho, getCenter_finite by lra.
    unfold vfin. repeat f_equal; lra. }
  split; [| split; [| split; [exact setFromObject_identity_minimal |
                     split; [exact Hcube | ]]]].
  - intros o Ho Hne.
    destruct (setFromObject_encloses o Ho) as [Htidy Hin].
    assert (Hbox : finite_box (setFromObject o)).
    { destruct (world_vertices o) as [| p ps] eqn:Hw; [contradiction |].
      exact (tidy_inhabited _ p Htidy (Hin p (or_introl eq_refl))). }
    destruct Hbox as (x0 & y0 & z0 & x1 & y1 & z1 & Hb & Hx & Hy & Hz).
    exists x0, y0, z0, x1, y1, z1.
    split; [exact Hb | split; [exact Hin |]].
    now rewrite computeFocus_getCenter, Hb, getCenter_finite.
  - intros o Ho Hne. apply setFromPoints_least; [exact Hne |].
    now apply setFromObject_encloses.
  - split; [exact cube_4_6_box |].
    split; [exact (Hcube _ cube_4_6_box) |].
    split; [exact unit_cube_at_5_box | exact (Hcube _ unit_cube_at_5_box)].
Qed.

(** C2.  An object without any vertex has an empty box.  When the box of
    the loaded object is empty, the layout effect publishes the point
    (0, 0, 0) that [getCenter] gives for an empty box, whatever the object;
    the scene takes it as its focus, and from then on every frame looks at
    (0, 0, 0) from a point of the orbit around it. *)
Theorem C2_empty_box_publishes_origin :
  (forall o : Object3D,
      world_vertices o = [] -> isEmpty (setFromObject o) = true) /\
  (forall (o : Object3D) (w : World),
      reachable w ->
      isEmpty (setFromObject o) = true ->
      let w1 := step w (ModelLayout (Some o)) in
      computeFocus o = vfin 0 0 0 /\
      bounds_effect (Some o) = Some (vfin 0 0 0) /\
      scene_target w1 = vfin 0 0 0 /\
      forall es : list Event,
        Forall keeps_target es ->
        scene_target (run w1 es) = vfin 0 0 0 /\
        forall delta : R,
          let cam := camera (fly (step (run w1 es) (Frame delta))) in
          lookAt cam = vfin 0 0 0 /\
          exists t r : R,
            20 <= r /\
            position cam = vfin (0 + cos (t * 0.3) * r)
                                (0 + (12 + sin (t * 0.4) * 3))
                                (0 + sin (t * 0.3) * r)).
Proof.
  split.
  { intros o Ho. now rewrite (setFromObject_no_vertices o Ho). }
  intros o w Hw Hempty w1.
  assert (Hfocus : computeFocus o = vfin 0 0 0).
  { rewrite computeFocus_getCenter. now apply getCenter_empty. }
  assert (Htarget : scene_target w1 = vfin 0 0 0).
  { unfold w1. cbn [step scene_target]. unfold Scene_onBounds, bounds_effect.
    exact Hfocus. }
  split; [exact Hfocus |].
  split; [unfold bounds_effect; now rewrite Hfocus |].
  split; [exact Htarget |].
  intros es Hes.
  assert (Hrun : scene_target (run w1 es) = vfin 0 0 0).
  { now rewrite keeps_target_run. }
  split; [exact Hrun |]. intros delta.
  assert (Hinv : page_invariant (run w1 es)).
  { apply page_invariant_run, page_invariant_step.
    now apply page_invariant_reachable. }
  destruct Hinv as [[j [_ Hs]] [e He]].
  destruct (step_frame_pose _ _ _ _ _ _ delta He Hs Hrun) as [Hlook Hpos].
  split; [exact Hlook |].
  eexists _, _. split; [| exact Hpos]. apply radius_floor.
Qed.

(** ** Instances *)

(** C2 at a scene whose only mesh has no vertex, loaded into the page in
    its initial state. *)
Lemma C2_empty_box_witness :
  reachable World_initial /\
  world_vertices empty_mesh_scene = [] /\
  isEmpty (setFromObject empty_mesh_scene) = true /\
  computeFocus empty_mesh_scene = vfin 0 0 0 /\
  scene_target (step World_initial (ModelLayout (Some empty_mesh_scene)))
  = vfin 0 0 0.
Proof.
  assert (Hr : reachable World_initial) by (exists []; reflexivity).
  assert (Hv : world_vertices empty_mesh_scene = []) by reflexivity.
  pose proof (proj1 C2_empty_box_publishes_origin empty_mesh_scene Hv) as He.
  split; [exact Hr | split; [exact Hv | split; [exact He |]]].
  pose proof (proj2 C2_empty_box_publishes_origin empty_mesh_scene
                World_initial Hr He) as H.
  split; [exact (proj1 H) | exact (proj1 (proj2 (proj2 H)))].
Defined.

(** C4 at accumulator 2, delta 1 and the initial speed 0.15. *)
Lemma C4_advance_witness :
  0 <= 1 /\ 0 < 0.15 /\ 2 <= 2 + 1 * 0.15.
Proof.
  assert (Hd : 0 <= 1) by lra.
  assert (Hs : 0 < 0.15) by lra.
  split; [exact Hd | split; [exact Hs |]].
  exact (proj2 (proj2 (C4_advance_monotone 2 1 0.15 default_target
                         default_fov (canvas_camera App_initial))) Hd Hs).
Defined.

(** C6 at the cube. *)
Lemma C6_cube_witness :
  finite_object cube_4_6 /\
  world_vertices cube_4_6 <> [] /\
  exists x0 y0 z0 x1 y1 z1 : R,
    setFromObject cube_4_6 = mkBox3 (vfin x0 y0 z0) (vfin x1 y1 z1) /\
    (forall p, In p (world_vertices cube_4_6) ->
               encloses (setFromObject cube_4_6) p) /\
    computeFocus cube_4_6
    = vfin ((x0 + x1) * 0.5) ((y0 + y1) * 0.5) ((z0 + z1) * 0.5).
Proof.
  assert (Hfin : finite_object cube_4_6).
  { unfold finite_object, cube_4_6. cbn. repeat constructor. }
  assert (Hne : world_vertices cube_4_6 <> []).
  { unfold world_vertices, cube_4_6. cbn. discriminate. }
  split; [exact Hfin | split; [exact Hne |]].
  exact (proj1 C6_focus_is_box_centre cube_4_6 Hfin Hne).
Defined.

(** C10 after the slider was moved to its third step and a frame ran. *)
Lemma C10_slider_witness :
  reachable (run World_initial [SpeedInput 3; Frame 1]) /\
  exists (s e : R) (j : nat),
    flySpeed (app (run World_initial [SpeedInput 3; Frame 1])) = Fin s /\
    (j <= 30)%nat /\ s = 0.05 + INR j * 0.01 /\
    0.05 <= s <= 0.35 /\ 0 < s /\
    t_current (fly (run World_initial [SpeedInput 3; Frame 1])) = Fin e /\
    forall delta : R,
      0 < delta ->
      exists e' : R,
        t_current (fly (step (run World_initial [SpeedInput 3; Frame 1])
                             (Frame delta))) = Fin e' /\ e < e'.
Proof.
  assert (Hr : reachable (run World_initial [SpeedInput 3; Frame 1])).
  { exists [SpeedInput 3; Frame 1]. reflexivity. }
  split; [exact Hr |].
  exact (proj2 (proj2 C10_slider_speed_positive) _ Hr).
Defined.

(** * Further properties *)

(** ** The flight *)

(** X1.  Two frames in a row under the same props leave the camera and
    the accumulator exactly where one frame with the sum of the two deltas
    leaves them: the flight does not depend on the frame rate. *)
Theorem frame_additive (e d1 d2 s : R) (tg : vec3) (fv : num) (c : Camera) :
  let p := mkFlyProps tg (Fin s) fv in
  let st := mkFlyState (Fin e) c in
  frame p (Fin d2) (frame p (Fin d1) st) = frame p (Fin (d1 + d2)) st.
Proof.
  intros p st. unfold frame, p, st, advance.
  cbn [t_current speed target camera fov projection_fov add mul].
  replace (e + d1 * s + d2 * s) with (e + (d1 + d2) * s) by lra.
  reflexivity.
Qed.

(** The radius without the cap of the zoom factor. *)
Lemma radius_closed_form (t : R) :
  Rmax 20 (26 + - (Rmin (t * 1.2) 6 * 1.5)) = Rmax 20 (26 - 1.8 * t).
Proof.
  destruct (Rle_dec (t * 1.2) 6) as [Hle | Hgt].
  - rewrite (Rmin_left _ _ Hle). f_equal. lra.
  - rewrite Rmin_right by lra.
    rewrite !Rmax_left by lra. reflexivity.
Qed.

(** X2.  The radius is [max(20, 26 - 1.8 t)] for every [t]: the cap 6 of
    the zoom factor never decides it.  It never grows with [t]; from 0 on
    it is at most 26, falls linearly until [t = 10/3] and stays 20 from
    there. *)
Theorem radius_profile :
  (forall t : R, radius (Fin t) = Fin (Rmax 20 (26 - 1.8 * t))) /\
  (forall t1 t2 : R,
      t1 <= t2 ->
      exists r1 r2 : R,
        radius (Fin t1) = Fin r1 /\ radius (Fin t2) = Fin r2 /\ r2 <= r1) /\
  (forall t : R,
      0 <= t <= 10 / 3 -> radius (Fin t) = Fin (26 - 1.8 * t)) /\
  (forall t : R, 10 / 3 <= t -> radius (Fin t) = Fin 20) /\
  (forall t : R,
      0 <= t -> exists r : R, radius (Fin t) = Fin r /\ 20 <= r <= 26).
Proof.
  assert (Hform : forall t : R,
             radius (Fin t) = Fin (Rmax 20 (26 - 1.8 * t))).
  { intros t. rewrite radius_fin. f_equal. apply radius_closed_form. }
  split; [exact Hform |]. split; [| split; [| split]].
  - intros t1 t2 Ht. eexists _, _.
    split; [apply Hform | split; [apply Hform |]].
    apply Rmax_lub; [apply Rmax_l |].
    eapply Rle_trans; [| apply Rmax_r]. lra.
  - intros t [H0 H1]. rewrite Hform. f_equal. apply Rmax_right. lra.
  - intros t Ht. rewrite Hform. f_equal. apply Rmax_left. lra.
  - intros t Ht. eexists. split; [apply Hform |].
    split; [apply Rmax_l | apply Rmax_lub; lra].
Qed.

(** X3.  Once the zoom is over (accumulator at least 10/3), the pose
    repeats when the accumulator is 20 pi further: three turns of the
    orbit and four swings of the height. *)
Theorem flight_periodic (e d s fx fy fz : R) (fv : num) (c c' : Camera) :
  10 / 3 <= e + d * s ->
  let p := mkFlyProps (vfin fx fy fz) (Fin s) fv in
  let cam := camera (frame p (Fin d) (mkFlyState (Fin e) c)) in
  let cam' := camera (frame p (Fin d) (mkFlyState (Fin (e + 20 * PI)) c')) in
  position cam' = position cam /\ lookAt cam' = lookAt cam.
Proof.
  intros Ht p cam cam'. split; [| reflexivity].
  unfold cam, cam', p. rewrite !frame_position_fin. cbv zeta.
  rewrite !radius_closed_form.
  pose proof PI_RGT_0 as Hpi.
  rewrite (Rmax_left 20 (26 - 1.8 * (e + 20 * PI + d * s))) by lra.
  rewrite (Rmax_left 20 (26 - 1.8 * (e + d * s))) by lra.
  replace ((e + 20 * PI + d * s) * 0.3)
    with ((e + d * s) * 0.3 + 2 * INR 3 * PI) by (simpl; lra).
  replace ((e + 20 * PI + d * s) * 0.4)
    with ((e + d * s) * 0.4 + 2 * INR 4 * PI) by (simpl; lra).
  now rewrite !cos_period, !sin_period.
Qed.

(** X4.  After a frame with a non-negative accumulator the camera is
    between 20 and 26 away from the focus horizontally and between 9 and
    15 above it, so its distance to the point it looks at lies inside the
    fog range (10, 60) and inside the clipping range (0.1, 200) of the
    canvas camera. *)
Theorem focus_in_view (e d s fx fy fz : R) (fv : num) (c : Camera) :
  0 <= e + d * s ->
  let st' := frame (mkFlyProps (vfin fx fy fz) (Fin s) fv) (Fin d)
                   (mkFlyState (Fin e) c) in
  exists px py pz : R,
    position (camera st') = vfin px py pz /\
    lookAt (camera st') = vfin fx fy fz /\
    20 <= sqrt ((px - fx) * (px - fx) + (pz - fz) * (pz - fz)) <= 26 /\
    9 <= py - fy <= 15 /\
    let dist := sqrt ((px - fx) * (px - fx) + (py - fy) * (py - fy)
                      + (pz - fz) * (pz - fz)) in
    canvas_near < fog_near /\ fog_near < dist /\ dist < fog_far /\
    fog_far < canvas_far.
Proof.
  intros Ht st'. set (t := e + d * s) in *.
  set (r := Rmax 20 (26 + - (Rmin (t * 1.2) 6 * 1.5))).
  set (h := 12 + sin (t * 0.4) * 3).
  assert (Hr : 20 <= r <= 26).
  { unfold r. rewrite radius_closed_form.
    split; [apply Rmax_l | apply Rmax_lub; lra]. }
  assert (Hh : 9 <= h <= 15).
  { unfold h. pose proof (SIN_bound (t * 0.4)) as [? ?]. lra. }
  exists (fx + cos (t * 0.3) * r), (fy + h), (fz + sin (t * 0.3) * r).
  split; [reflexivity | split; [reflexivity |]].
  replace (fx + cos (t * 0.3) * r - fx) with (cos (t * 0.3) * r) by lra.
  replace (fz + sin (t * 0.3) * r - fz) with (sin (t * 0.3) * r) by lra.
  replace (fy + h - fy) with h by lra.
  rewrite orbit_offset_length by lra.
  split; [exact Hr | split; [exact Hh |]].
  cbv zeta. unfold canvas_near, canvas_far, fog_near, fog_far.
  assert (Hsq : cos (t * 0.3) * r * (cos (t * 0.3) * r) + h * h
                + sin (t * 0.3) * r * (sin (t * 0.3) * r)
                = r * r + h * h).
  { pose proof (sin2_cos2 (t * 0.3)) as H. unfold Rsqr in H.
    transitivity ((sin (t * 0.3) * sin (t * 0.3)
                   + cos (t * 0.3) * cos (t * 0.3)) * (r * r) + h * h).
    - ring.
    - rewrite H. ring. }
  rewrite Hsq.
  assert (Hlo : 10 * 10 < r * r + h * h) by nra.
  assert (Hhi : r * r + h * h < 60 * 60) by nra.
  split; [lra | split; [| split; [| lra]]].
  - rewrite <- (sqrt_square 10) by lra. apply sqrt_lt_1; nra.
  - rewrite <- (sqrt_square 60) by lra. apply sqrt_lt_1; nra.
Qed.

(** ** The accumulator over a run *)

Lemma wall_time_nonneg (es : list Event) :
  Forall clock_event es -> 0 <= wall_time es.
Proof.
  induction 1 as [| ev es Hev _ IH]; cbn [wall_time]; [lra |].
  destruct ev; cbn in Hev; lra.
Qed.

Lemma accumulator_run (es : list Event) :
  Forall clock_event es ->
  forall w : World,
    page_invariant w ->
    exists e e' : R,
      t_current (fly w) = Fin e /\
      t_current (fly (run w es)) = Fin e' /\
      e + 0.05 * wall_time es <= e' <= e + 0.35 * wall_time es.
Proof.
  induction 1 as [| ev es Hev _ IH]; intros w Hw.
  - destruct Hw as [_ [e He]]. exists e, e. cbn [run fold_left wall_time].
    repeat split; [exact He | exact He | lra | lra].
  - destruct (IH (step w ev) (page_invariant_step w ev Hw))
      as (e1 & e' & He1 & He' & Hbound).
    destruct Hw as [[j [Hj Hs]] [e He]].
    pose proof (grid_in_range j Hj) as Hrange.
    exists e, e'. split; [exact He | split; [exact He' |]].
    destruct ev as [delta | k | k | ref]; cbn [wall_time];
      cbn [step fly] in He1.
    + unfold fly_props, frame in He1. cbn [t_current speed] in He1.
      rewrite He, Hs in He1. cbn in He1. injection He1 as He1.
      cbn in Hev. nra.
    + rewrite He in He1. injection He1 as He1. lra.
    + cbn [fov_effect t_current] in He1.
      rewrite He in He1. injection He1 as He1. lra.
    + rewrite He in He1. injection He1 as He1. lra.
Qed.

(** X5.  Over any run of the page whose frame deltas are not negative,
    the accumulator grows by at least 0.05 and at most 0.35 times the
    time the frames took, whatever the sliders do in between; from the
    start of the page it is therefore never negative. *)
Theorem accumulator_tracks_wall_time :
  (forall (w : World) (es : list Event),
      reachable w -> Forall clock_event es ->
      exists e e' : R,
        t_current (fly w) = Fin e /\
        t_current (fly (run w es)) = Fin e' /\
        e <= e' /\
        e + 0.05 * wall_time es <= e' <= e + 0.35 * wall_time es) /\
  (forall es : list Event,
      Forall clock_event es ->
      exists e : R,
        t_current (fly (run World_initial es)) = Fin e /\
        0 <= e /\
        0.05 * wall_time es <= e <= 0.35 * wall_time es).
Proof.
  split.
  - intros w es Hw Hes.
    destruct (accumulator_run es Hes w (page_invariant_reachable w Hw))
      as (e & e' & He & He' & Hbound).
    pose proof (wall_time_nonneg es Hes).
    exists e, e'. repeat split; try assumption; lra.
  - intros es Hes.
    destruct (accumulator_run es Hes World_initial page_invariant_initial)
      as (e & e' & He & He' & Hbound).
    cbn in He. injection He as <-.
    pose proof (wall_time_nonneg es Hes).
    exists e'. repeat split; try assumption; lra.
Qed.

(** X6.  The zoom ends by the clock: after frames that took 200/3 in
    all, the radius of the orbit is 20 whatever the speed slider did, and
    before they took 200/21 it is still above 20. *)
Theorem zoom_ends_by_wall_time (es : list Event) :
  Forall clock_event es ->
  let w := run World_initial es in
  (200 / 3 <= wall_time es -> radius (t_current (fly w)) = Fin 20) /\
  (wall_time es < 200 / 21 ->
   exists r : R, radius (t_current (fly w)) = Fin r /\ 20 < r).
Proof.
  intros Hes w.
  destruct (accumulator_run es Hes World_initial page_invariant_initial)
    as (e0 & e & He0 & He & Hbound).
  cbn in He0. injection He0 as <-. fold w in He.
  split; intros HT; rewrite He, radius_fin, radius_closed_form.
  - f_equal. apply Rmax_left. lra.
  - eexists. split; [reflexivity |].
    eapply Rlt_le_trans; [| apply Rmax_r]. lra.
Qed.

(** ** The perspective slider and the labels *)

(** The perspective slider reports one of the 51 values 50, 51, ..., 100. *)
Lemma perspective_slider_grid (k : nat) :
  exists j : nat,
    (j <= 50)%nat /\ range_value perspective_slider k = 50 + INR j.
Proof.
  unfold range_value, perspective_slider;
    cbn [range_min range_max range_step].
  destruct (Nat.le_gt_cases k 50) as [Hk | Hk].
  - exists k. split; [exact Hk |].
    rewrite Rmin_right; [lra |].
    apply le_INR in Hk.
    replace (INR 50) with 50 in Hk by (rewrite INR_IZR_INZ; reflexivity).
    lra.
  - exists 50%nat. split; [apply Nat.le_refl |].
    apply Nat.lt_le_incl, le_INR in Hk.
    replace (INR 50) with 50 in * by (rewrite INR_IZR_INZ; reflexivity).
    rewrite Rmin_left; lra.
Qed.

Lemma fov_follows_step (w : World) (ev : Event) :
  fov (camera (fly w)) = perspective (app w) /\
  projection_fov (camera (fly w)) = perspective (app w) /\
  (exists j : nat, (j <= 50)%nat /\ perspective (app w) = Fin (50 + INR j)) ->
  fov (camera (fly (step w ev))) = perspective (app (step w ev)) /\
  projection_fov (camera (fly (step w ev))) = perspective (app (step w ev)) /\
  (exists j : nat,
      (j <= 50)%nat /\ perspective (app (step w ev)) = Fin (50 + INR j)).
Proof.
  intros (Hfov & Hproj & Hgrid).
  destruct ev as [delta | k | k | ref]; cbn.
  - now repeat split.
  - now repeat split.
  - split; [reflexivity | split; [reflexivity |]].
    destruct (perspective_slider_grid k) as [j [Hj Hv]].
    exists j. split; [exact Hj | now rewrite Hv].
  - now repeat split.
Qed.

Lemma fov_invariant (w : World) :
  reachable w ->
  fov (camera (fly w)) = perspective (app w) /\
  projection_fov (camera (fly w)) = perspective (app w) /\
  exists j : nat, (j <= 50)%nat /\ perspective (app w) = Fin (50 + INR j).
Proof.
  intros [es ->].
  assert (H : fov (camera (fly (run World_initial es)))
              = perspective (app (run World_initial es)) /\
              projection_fov (camera (fly (run World_initial es)))
              = perspective (app (run World_initial es)) /\
              exists j : nat,
                (j <= 50)%nat /\
                perspective (app (run World_initial es)) = Fin (50 + INR j)).
  { induction es as [| ev es IH] using rev_ind.
    - split; [reflexivity | split; [reflexivity |]].
      exists 25%nat. split; [repeat constructor |].
      cbn [run fold_left World_initial app App_initial perspective].
      f_equal. rewrite INR_IZR_INZ. simpl. lra.
    - rewrite run_snoc. now apply fov_follows_step. }
  exact H.
Qed.

(** X7.  The page starts with a field of view of 75, and in every state
    the camera's [fov], and the one in its projection, is the value of the
    perspective slider, which is one of 50, 51, ..., 100. *)
Theorem fov_follows_slider :
  fov (camera (fly World_initial)) = Fin 75 /\
  (forall k : nat, 50 <= range_value perspective_slider k <= 100) /\
  (forall w : World,
      reachable w ->
      fov (camera (fly w)) = perspective (app w) /\
      projection_fov (camera (fly w)) = perspective (app w) /\
      exists j : nat,
        (j <= 50)%nat /\ perspective (app w) = Fin (50 + INR j)).
Proof.
  split; [reflexivity | split; [| exact fov_invariant]].
  intros k. destruct (perspective_slider_grid k) as [j [Hj ->]].
  pose proof (pos_INR j). apply le_INR in Hj.
  replace (INR 50) with 50 in Hj by (rewrite INR_IZR_INZ; reflexivity).
  lra.
Qed.

Lemma Int_part_half (z : Z) : Int_part (IZR z + 0.5) = z.
Proof. symmetry. apply Int_part_spec. lra. Qed.

(** X8.  The labels show the state itself: [Math.round] returns the
    perspective unchanged, and [toFixed(2)] of the speed 0.05 + j * 0.01
    is the fixed-point text of 5 + j hundredths, without a sign. *)
Theorem labels_exact (w : World) :
  reachable w ->
  perspective_label (app w) = perspective (app w) /\
  exists j : nat,
    (j <= 30)%nat /\
    flySpeed (app w) = Fin (IZR (5 + Z.of_nat j) / 100) /\
    speed_label (app w) = FixedPoint false (5 + Z.of_nat j) 2.
Proof.
  intros Hw.
  destruct (fov_invariant w Hw) as (_ & _ & i & Hi & Hp).
  destruct (page_invariant_reachable w Hw) as [[j [Hj Hs]] _].
  split.
  - unfold perspective_label. rewrite Hp. cbn [Math_round]. f_equal.
    replace (50 + INR i) with (IZR (50 + Z.of_nat i))
      by (rewrite plus_IZR, <- INR_IZR_INZ; reflexivity).
    now rewrite Int_part_half.
  - exists j. split; [exact Hj |].
    assert (Hval : 0.05 + INR j * 0.01 = IZR (5 + Z.of_nat j) / 100).
    { rewrite plus_IZR, <- INR_IZR_INZ. lra. }
    split; [now rewrite Hs, Hval |].
    unfold speed_label. rewrite Hs. cbn [toFixed].
    pose proof (grid_in_range j Hj) as Hrange.
    assert (Hbig : 1 <= 10 ^ 21) by (apply pow_R1_Rle; lra).
    destruct (Rle_dec (10 ^ 21) (Rabs (0.05 + INR j * 0.01))) as [Hle | _].
    { rewrite Rabs_pos_eq in Hle by lra. lra. }
    destruct (Rlt_dec (0.05 + INR j * 0.01) 0) as [Hneg | _]; [lra |].
    f_equal.
    replace ((0.05 + INR j * 0.01) * 10 ^ 2 + 0.5)
      with (IZR (5 + Z.of_nat j) + 0.5)
      by (rewrite plus_IZR, <- INR_IZR_INZ; simpl; lra).
    apply Int_part_half.
Qed.

(** ** The focus of a finite model *)





(** ** The favicon *)

Lemma update_first_spec (matches : LinkEl -> bool) (f : LinkEl -> LinkEl)
    (ls : list LinkEl) :
  match update_first matches f ls with
  | Some ls' =>
      exists pre l post,
        ls = pre ++ l :: post /\ ls' = pre ++ f l :: post /\
        Forall (fun x => matches x = false) pre /\ matches l = true
  | None => Forall (fun x => matches x = false) ls
  end.
Proof.
  induction ls as [| a ls IH]; cbn [update_first]; [constructor |].
  destruct (matches a) eqn:Ha.
  - exists [], a, ls.
    split; [reflexivity | split; [reflexivity | split; [constructor |]]].
    exact Ha.
  - destruct (update_first matches f ls) as [ls' |]; cbn [option_map].
    + destruct IH as (pre & l & post & -> & -> & Hpre & Hl).
      exists (a :: pre), l, post.
      split; [reflexivity | split; [reflexivity | split; [| exact Hl]]].
      now constructor.
    + now constructor.
Qed.

Lemma update_first_skip (matches : LinkEl -> bool) (f : LinkEl -> LinkEl)
    (pre ls : list LinkEl) :
  Forall (fun x => matches x = false) pre ->
  update_first matches f (pre ++ ls)
  = option_map (Datatypes.app pre) (update_first matches f ls).
Proof.
  induction 1 as [| a pre Ha _ IH]; cbn [Datatypes.app update_first].
  - now destruct (update_first matches f ls).
  - rewrite Ha, IH. now destruct (update_first matches f ls).
Qed.

Lemma find_skip (matches : LinkEl -> bool) (pre ls : list LinkEl) :
  Forall (fun x => matches x = false) pre ->
  find matches (pre ++ ls) = find matches ls.
Proof.
  induction 1 as [| a pre Ha _ IH]; cbn [Datatypes.app find];
    [reflexivity |].
  now rewrite Ha.
Qed.

Section Favicon_facts.

Variable icon_selector : LinkEl -> bool.
Variable toDataURL : num -> list CanvasOp -> String.string.

(** An element whose [rel] is [icon] matches [link[rel~='icon']]. *)
Hypothesis selector_accepts_icon :
  forall l : LinkEl, link_rel l = "icon"%string -> icon_selector l = true.

Lemma set_icon_matches (l : LinkEl) :
  icon_selector (set_icon toDataURL l) = true.
Proof. now apply selector_accepts_icon. Qed.

Lemma update_first_again (pre post : list LinkEl) (l : LinkEl) :
  Forall (fun x => icon_selector x = false) pre ->
  update_first icon_selector (set_icon toDataURL)
    (pre ++ set_icon toDataURL l :: post)
  = Some (pre ++ set_icon toDataURL l :: post).
Proof.
  intros Hpre. rewrite update_first_skip by exact Hpre.
  cbn [update_first]. now rewrite set_icon_matches.
Qed.

(** X11.  Without a 2D context the document is left as it is.  With
    one, the first link that matches the selector is afterwards an icon
    link of type image/png whose address is the PNG of the drawing: a
    link that matched before is changed in place, its other attributes
    and every other link kept; if none matched, one new link is appended
    to the head. *)
Theorem favicon_link_installed (doc : Document) :
  setMountainFavicon icon_selector toDataURL false doc = doc /\
  let doc' := setMountainFavicon icon_selector toDataURL true doc in
  (exists l : LinkEl,
      querySelector icon_selector doc' = Some l /\
      link_rel l = "icon"%string /\ link_type l = "image/png"%string /\
      link_href l = toDataURL favicon_size favicon_drawing) /\
  ((exists pre old post,
       links doc = pre ++ old :: post /\
       Forall (fun x => icon_selector x = false) pre /\
       icon_selector old = true /\
       links doc' = pre ++ set_icon toDataURL old :: post /\
       link_others (set_icon toDataURL old) = link_others old) \/
   (querySelector icon_selector doc = None /\
    doc_head doc' = doc_head doc ++ [set_icon toDataURL createElement_link] /\
    doc_rest doc' = doc_rest doc)).
Proof.
  split; [reflexivity |]. cbv zeta.
  unfold setMountainFavicon, querySelector, links. cbn [negb].
  pose proof (update_first_spec icon_selector (set_icon toDataURL)
                (doc_head doc)) as Hhead.
  destruct (update_first icon_selector (set_icon toDataURL) (doc_head doc))
    as [head' |].
  - destruct Hhead as (pre & l & post & Hdoc & -> & Hpre & Hl).
    cbn [doc_head doc_rest]. split.
    + exists (set_icon toDataURL l).
      rewrite <- app_assoc, find_skip by exact Hpre.
      cbn [Datatypes.app find]. rewrite set_icon_matches. now repeat split.
    + left. exists pre, l, (post ++ doc_rest doc).
      rewrite Hdoc, <- !app_assoc. now repeat split.
  - pose proof (update_first_spec icon_selector (set_icon toDataURL)
                  (doc_rest doc)) as Hrest.
    destruct (update_first icon_selector (set_icon toDataURL) (doc_rest doc))
      as [rest' |].
    + destruct Hrest as (pre & l & post & Hdoc & -> & Hpre & Hl).
      cbn [doc_head doc_rest]. split.
      * exists (set_icon toDataURL l).
        rewrite app_assoc, find_skip
          by (apply Forall_app; now split).
        cbn [find]. rewrite set_icon_matches. now repeat split.
      * left. exists (doc_head doc ++ pre), l, post.
        rewrite Hdoc, <- !app_assoc.
        repeat split; [apply Forall_app; now split | exact Hl].
    + cbn [doc_head doc_rest]. split.
      * exists (set_icon toDataURL createElement_link).
        rewrite <- app_assoc, find_skip by exact Hhead.
        cbn [Datatypes.app find]. rewrite set_icon_matches. now repeat split.
      * right. split; [| now split].
        assert (Hall : Forall (fun x => icon_selector x = false)
                         (doc_head doc ++ doc_rest doc))
          by (apply Forall_app; now split).
        destruct (find icon_selector (doc_head doc ++ doc_rest doc))
          as [l |] eqn:Hfind; [| reflexivity].
        apply find_some in Hfind as [Hin Hl].
        rewrite Forall_forall in Hall. rewrite (Hall l Hin) in Hl.
        discriminate.
Qed.

(** X12.  Setting the favicon again changes nothing: the second call
    finds the link of the first and writes the same three values. *)
Theorem favicon_idempotent (has_ctx : bool) (doc : Document) :
  setMountainFavicon icon_selector toDataURL has_ctx
    (setMountainFavicon icon_selector toDataURL has_ctx doc)
  = setMountainFavicon icon_selector toDataURL has_ctx doc.
Proof.
  destruct has_ctx; [| reflexivity].
  unfold setMountainFavicon. cbn [negb].
  pose proof (update_first_spec icon_selector (set_icon toDataURL)
                (doc_head doc)) as Hhead.
  destruct (update_first icon_selector (set_icon toDataURL) (doc_head doc))
    as [head' |] eqn:Ehead.
  - destruct Hhead as (pre & l & post & Hdoc & -> & Hpre & Hl).
    cbn [doc_head doc_rest].
    now rewrite update_first_again.
  - pose proof (update_first_spec icon_selector (set_icon toDataURL)
                  (doc_rest doc)) as Hrest.
    destruct (update_first icon_selector (set_icon toDataURL) (doc_rest doc))
      as [rest' |] eqn:Erest.
    + destruct Hrest as (pre & l & post & Hdoc & -> & Hpre & Hl).
      cbn [doc_head doc_rest]. rewrite Ehead.
      now rewrite update_first_again.
    + cbn [doc_head doc_rest].
      now rewrite update_first_again.
Qed.

End Favicon_facts.

(** ** The focus over a run *)

Lemma step_frame_lookAt (w : World) (delta : R) :
  lookAt (camera (fly (step w (Frame delta)))) = scene_target w.
Proof.
  cbn [step fly]. unfold fly_props, frame. cbn [camera lookAt target].
  now destruct (scene_target w).
Qed.

(** X13.  Until a model is laid out every frame looks at (0, 0.5, 0).
    Once a model is laid out, every frame looks at the centre of that
    model's box until another layout replaces it, whatever the sliders
    do; a layout effect that finds [ref.current] unset changes nothing. *)
Theorem camera_looks_at_model :
  (forall (es : list Event) (delta : R),
      Forall keeps_target es ->
      lookAt (camera (fly (step (run World_initial es) (Frame delta))))
      = vfin 0 0.5 0) /\
  (forall (w : World) (o : Object3D) (es : list Event) (delta : R),
      Forall keeps_target es ->
      let w' := run (step w (ModelLayout (Some o))) es in
      scene_target w' = computeFocus o /\
      lookAt (camera (fly (step w' (Frame delta)))) = computeFocus o) /\
  (forall w : World, step w (ModelLayout None) = w).
Proof.
  split; [| split].
  - intros es delta Hes.
    now rewrite step_frame_lookAt, keeps_target_run.
  - intros w o es delta Hes w'.
    assert (Htg : scene_target w' = computeFocus o).
    { unfold w'. now rewrite keeps_target_run. }
    split; [exact Htg |]. now rewrite step_frame_lookAt.
  - intros [a tg f]. reflexivity.
Qed.

(** ** Instances of the further properties *)

(** X2 between the accumulators 1 and 2. *)
Lemma radius_profile_witness :
  1 <= 2 /\
  exists r1 r2 : R,
    radius (Fin 1) = Fin r1 /\ radius (Fin 2) = Fin r2 /\ r2 <= r1.
Proof.
  assert (H : 1 <= 2) by lra.
  split; [exact H |].
  exact (proj1 (proj2 radius_profile) 1 2 H).
Defined.

(** X3 from the accumulator 4 on, at the initial speed. *)
Lemma flight_periodic_witness :
  10 / 3 <= 4 + 1 * 0.15 /\
  position (camera (frame (mkFlyProps (vfin 0 0.5 0) (Fin 0.15) (Fin 75))
                          (Fin 1)
                          (mkFlyState (Fin (4 + 20 * PI))
                                      (canvas_camera App_initial))))
  = position (camera (frame (mkFlyProps (vfin 0 0.5 0) (Fin 0.15) (Fin 75))
                            (Fin 1)
                            (mkFlyState (Fin 4) (canvas_camera App_initial)))).
Proof.
  assert (H : 10 / 3 <= 4 + 1 * 0.15) by lra.
  split; [exact H |].
  exact (proj1 (flight_periodic 4 1 0.15 0 0.5 0 (Fin 75)
                  (canvas_camera App_initial) (canvas_camera App_initial) H)).
Defined.

(** X4 at the first frame of the page. *)
Lemma focus_in_view_witness :
  0 <= 0 + 1 * 0.15 /\
  exists px py pz : R,
    position (camera (frame (mkFlyProps (vfin 0 0.5 0) (Fin 0.15) (Fin 75))
                            (Fin 1) (mount (canvas_camera App_initial))))
    = vfin px py pz /\
    20 <= sqrt ((px - 0) * (px - 0) + (pz - 0) * (pz - 0)) <= 26.
Proof.
  assert (H : 0 <= 0 + 1 * 0.15) by lra.
  split; [exact H |].
  destruct (focus_in_view 0 1 0.15 0 0.5 0 (Fin 75)
              (canvas_camera App_initial) H)
    as (px & py & pz & Hpos & _ & Hr & _).
  exists px, py, pz. split; [exact Hpos | exact Hr].
Defined.

(** X5 over two frames with a slider change between them. *)
Lemma accumulator_witness :
  Forall clock_event [Frame 1; SpeedInput 30; Frame 2] /\
  exists e : R,
    t_current (fly (run World_initial [Frame 1; SpeedInput 30; Frame 2]))
    = Fin e /\
    0 <= e /\
    0.05 * wall_time [Frame 1; SpeedInput 30; Frame 2] <= e
    <= 0.35 * wall_time [Frame 1; SpeedInput 30; Frame 2].
Proof.
  assert (H : Forall clock_event [Frame 1; SpeedInput 30; Frame 2]).
  { repeat apply Forall_cons; try apply Forall_nil; cbn; try exact I; lra. }
  split; [exact H |].
  exact (proj2 accumulator_tracks_wall_time _ H).
Defined.

(** X6 after one frame of 70. *)
Lemma zoom_ends_witness :
  Forall clock_event [Frame 70] /\
  200 / 3 <= wall_time [Frame 70] /\
  radius (t_current (fly (run World_initial [Frame 70]))) = Fin 20.
Proof.
  assert (H : Forall clock_event [Frame 70]).
  { apply Forall_cons; [cbn; lra | apply Forall_nil]. }
  assert (HT : 200 / 3 <= wall_time [Frame 70]) by (cbn; lra).
  split; [exact H | split; [exact HT |]].
  exact (proj1 (zoom_ends_by_wall_time [Frame 70] H) HT).
Defined.

(** X7 and X8 after both sliders were moved. *)
Lemma fov_follows_slider_witness :
  reachable (run World_initial [PerspectiveInput 5; SpeedInput 2]) /\
  fov (camera (fly (run World_initial [PerspectiveInput 5; SpeedInput 2])))
  = perspective (app (run World_initial [PerspectiveInput 5; SpeedInput 2])).
Proof.
  assert (H : reachable (run World_initial [PerspectiveInput 5; SpeedInput 2])).
  { exists [PerspectiveInput 5; SpeedInput 2]. reflexivity. }
  split; [exact H |].
  exact (proj1 (proj2 (proj2 fov_follows_slider) _ H)).
Defined.

Lemma labels_exact_witness :
  reachable (run World_initial [PerspectiveInput 5; SpeedInput 2]) /\
  perspective_label (app (run World_initial [PerspectiveInput 5; SpeedInput 2]))
  = perspective (app (run World_initial [PerspectiveInput 5; SpeedInput 2])).
Proof.
  assert (H : reachable (run World_initial [PerspectiveInput 5; SpeedInput 2])).
  { exists [PerspectiveInput 5; SpeedInput 2]. reflexivity. }
  split; [exact H |].
  exact (proj1 (labels_exact _ H)).
Defined.




Lemma rel_is_icon_accepts (l : LinkEl) :
  link_rel l = "icon"%string -> rel_is_icon l = true.
Proof. intros H. unfold rel_is_icon. rewrite H. reflexivity. Defined.

(** X11 and X12 on a document whose only link is a style sheet, with a
    selector that compares [rel] with [icon]. *)
Lemma favicon_installed_witness :
  exists l : LinkEl,
    querySelector rel_is_icon
      (setMountainFavicon rel_is_icon sample_toDataURL true sample_document)
    = Some l /\
    link_rel l = "icon"%string.
Proof.
  destruct (proj2 (favicon_link_installed rel_is_icon sample_toDataURL
                     rel_is_icon_accepts sample_document))
    as [[l (Hq & Hrel & _)] _].
  exists l. split; [exact Hq | exact Hrel].
Defined.

Lemma favicon_idempotent_witness :
  setMountainFavicon rel_is_icon sample_toDataURL true
    (setMountainFavicon rel_is_icon sample_toDataURL true sample_document)
  = setMountainFavicon rel_is_icon sample_toDataURL true sample_document.
Proof.
  exact (favicon_idempotent rel_is_icon sample_toDataURL rel_is_icon_accepts
           true sample_document).
Defined.

(** X13 with the cube laid out, then a slider change and a frame. *)
Lemma camera_looks_witness :
  Forall keeps_target [SpeedInput 4] /\
  lookAt (camera (fly (step (run (step World_initial
                                       (ModelLayout (Some cube_4_6)))
                                 [SpeedInput 4])
                            (Frame 1))))
  = computeFocus cube_4_6.
Proof.
  assert (H : Forall keeps_target [SpeedInput 4]).
  { apply Forall_cons; [exact I | apply Forall_nil]. }
  split; [exact H |].
  exact (proj2 (proj1 (proj2 camera_looks_at_model) World_initial cube_4_6
                  [SpeedInput 4] 1 H)).
Defined.
